(** * capture: a two-player board game on a 9x9 table of cells

    Shallow embedding of [main.go]: the board, the input validator
    [validateInput], the state update [move], one [Turn], the table
    built by [Render] and the loop of [main], followed by the
    properties of the board state machine. *)

From Stdlib Require Import ZArith Ascii String DecimalString Lia.
From stdpp Require Import base option list gmap strings.

Local Open Scope Z_scope.

(** ** Go strings: bytes, runes and the [strconv] conversions *)

Module GoString.

(** A Go string is a sequence of bytes; [ascii] is the 8-bit byte. *)
Definition byte_val (c : ascii) : Z := Z.of_N (N_of_ascii c).
Definition byte_of (z : Z) : ascii := ascii_of_N (Z.to_N (z mod 256)).

(** [string(rune(r))] and [string(b)] for a byte [b]: the UTF-8
    encoding of the code point, U+FFFD for an invalid one. *)
Definition string_of_rune (r : Z) : string :=
  let b1 x := String (byte_of x) EmptyString in
  if (r <? 0) || (1114111 <? r) || ((55296 <=? r) && (r <=? 57343))
  then String (byte_of 239) (String (byte_of 191) (b1 189))
  else if r <=? 127 then b1 r
  else if r <=? 2047 then
    String (byte_of (Z.lor 192 (Z.shiftr r 6)))
           (b1 (Z.lor 128 (Z.land r 63)))
  else if r <=? 65535 then
    String (byte_of (Z.lor 224 (Z.shiftr r 12)))
      (String (byte_of (Z.lor 128 (Z.land (Z.shiftr r 6) 63)))
              (b1 (Z.lor 128 (Z.land r 63))))
  else
    String (byte_of (Z.lor 240 (Z.shiftr r 18)))
      (String (byte_of (Z.lor 128 (Z.land (Z.shiftr r 12) 63)))
        (String (byte_of (Z.lor 128 (Z.land (Z.shiftr r 6) 63)))
                (b1 (Z.lor 128 (Z.land r 63))))).

Definition string_of_byte (c : ascii) : string := string_of_rune (byte_val c).

(** The two errors of [strconv]: [ErrSyntax] and [ErrRange]. *)
Inductive NumError := ErrSyntax | ErrRange.

(** The digit loop of [strconv.Atoi]: [ch -= '0'] on a byte, then
    [ch > 9] is a syntax error. *)
Fixpoint digits (s : string) (n : Z) : option Z :=
  match s with
  | EmptyString => Some n
  | String ch s' =>
      let d := (byte_val ch - 48) mod 256 in
      if 9 <? d then None else digits s' (n * 10 + d)
  end.

Definition maxInt : Z := 2 ^ 63 - 1.
Definition minInt : Z := - 2 ^ 63.

(** [strconv.Atoi]: an optional sign, then one or more decimal digits;
    the value and a nil error, or 0 and [ErrSyntax], or the nearest
    bound of the 64-bit [int] and [ErrRange]. *)
Definition Atoi (s : string) : Z * option NumError :=
  match s with
  | EmptyString => (0, Some ErrSyntax)
  | String c rest =>
      let neg := Ascii.eqb c "-"%char in
      let body := if neg || Ascii.eqb c "+"%char then rest else s in
      match body with
      | EmptyString => (0, Some ErrSyntax)
      | _ =>
          match digits body 0 with
          | None => (0, Some ErrSyntax)
          | Some n =>
              let v := if neg then - n else n in
              if maxInt <? v then (maxInt, Some ErrRange)
              else if v <? minInt then (minInt, Some ErrRange)
              else (v, None)
          end
      end
  end.

(** [strconv.Itoa]: the decimal numeral of an [int]. *)
Definition Itoa (i : Z) : string := NilZero.string_of_int (Z.to_int i).

End GoString.
Import GoString.

(** ** The data model *)

Inductive cellStatus := Available | Player1Occupied | Player2Occupied | Block.

#[global] Instance cellStatus_eq_dec : EqDecision cellStatus.
Proof. solve_decision. Defined.

Record Cell := mkCell { Status : cellStatus }.

#[global] Instance Cell_eq_dec : EqDecision Cell.
Proof. solve_decision. Defined.

(** [Cell.Render]; the [default: panic] arm of the source has no
    counterpart, [cellStatus] has the four declared values only. *)
Definition Cell_Render (c : Cell) : string :=
  match Status c with
  | Available => ""
  | Player1Occupied => "X"
  | Player2Occupied => "O"
  | Block => "~"
  end.

Definition gridSize : Z := 9.

Record Board := mkBoard {
  Rows : list (list Cell);
  playerOneTurn : bool;
  playerOneRow : Z;
  playerOneCol : Z;
  playerTwoRow : Z;
  playerTwoCol : Z
}.

Definition newCell : Cell := {| Status := Available |}.

(** The counting loops [for i := 0; i < gridSize; i++] append one
    element per iteration. *)
Definition newRow : list Cell :=
  foldl (fun columns _ => columns ++ [newCell]) [] (seqZ 0 gridSize).

Definition newBoard : Board :=
  {| Rows := foldl (fun rows _ => rows ++ [newRow]) [] (seqZ 0 gridSize);
     playerOneTurn := true;
     playerOneRow := 0; playerOneCol := 0;
     playerTwoRow := 0; playerTwoCol := 0 |}.

(** ** The column tables filled by [init] *)

Definition init (tables : gmap Z string * gmap string Z)
  : gmap Z string * gmap string Z :=
  foldl (fun '(cm, cmi) i =>
           let letter := string_of_rune (65 + i) in
           (<[i := letter]> cm, <[letter := i + 1]> cmi))
        tables (seqZ 0 gridSize).

Definition columnMap : gmap Z string := fst (init (∅, ∅)).
Definition columnMapInverted : gmap string Z := snd (init (∅, ∅)).

(** ** Input validation *)

(** One constructor per [fmt.Errorf] of [validateInput], with the
    arguments passed to it. *)
Inductive inputError :=
| ErrNotValidPosition
| ErrNotSerious (row : Z)
| ErrRowDoesNotExist (row : Z)
| ErrColumnDoesNotExist (letter : string).

#[global] Instance inputError_eq_dec : EqDecision inputError.
Proof. solve_decision. Defined.

Definition validateInput (b : Board) (text : string) : Z * Z * option inputError :=
  match text with
  | String letter (String digit EmptyString) =>
      let '(row, err) := Atoi (string_of_byte digit) in
      match err with
      | Some _ => (-1, -1, Some (ErrNotSerious row))
      | None =>
          if (row >? gridSize) || (row <? 1)
          then (-1, -1, Some (ErrRowDoesNotExist row))
          else match columnMapInverted !! string_of_byte letter with
               | None => (-1, -1, Some (ErrColumnDoesNotExist (string_of_byte letter)))
               | Some column => (row, column, None)
               end
      end
  | _ => (-1, -1, Some ErrNotValidPosition)
  end.

(** ** Applying a move *)

Definition getCell (rows : list (list Cell)) (r c : Z) : option Cell :=
  if (r <? 0) || (c <? 0) then None
  else rows !! Z.to_nat r ≫= fun row => row !! Z.to_nat c.

(** The assignment [rows[r][c] = v]; [None] is the run-time panic of an
    index out of range. *)
Definition setCell (rows : list (list Cell)) (r c : Z) (v : Cell)
  : option (list (list Cell)) :=
  if r <? 0 then None
  else match rows !! Z.to_nat r with
       | None => None
       | Some row =>
           if (c <? 0) || (Z.of_nat (length row) <=? c) then None
           else Some (<[Z.to_nat r := <[Z.to_nat c := v]> row]> rows)
       end.

Definition move (b : Board) (moveToRow moveToColumn : Z) : option Board :=
  if playerOneTurn b then
    rows1 ← (if playerOneRow b >? 0
             then setCell (Rows b) (playerOneRow b) (playerOneCol b) (mkCell Block)
             else Some (Rows b));
    rows2 ← setCell rows1 moveToRow moveToColumn (mkCell Player1Occupied);
    Some {| Rows := rows2; playerOneTurn := playerOneTurn b;
            playerOneRow := moveToRow; playerOneCol := moveToColumn;
            playerTwoRow := playerTwoRow b; playerTwoCol := playerTwoCol b |}
  else
    rows1 ← (if playerTwoRow b >? 0
             then setCell (Rows b) (playerTwoRow b) (playerTwoCol b) (mkCell Block)
             else Some (Rows b));
    rows2 ← setCell rows1 moveToRow moveToColumn (mkCell Player2Occupied);
    Some {| Rows := rows2; playerOneTurn := playerOneTurn b;
            playerOneRow := playerOneRow b; playerOneCol := playerOneCol b;
            playerTwoRow := moveToRow; playerTwoCol := moveToColumn |}.

(** The name printed in the prompt of [captureInput]. *)
Definition playerTurn (b : Board) : string :=
  if negb (playerOneTurn b) then "Player Two" else "Player One".

(** ** Rendering: the rows handed to the table writer *)

Definition Render (b : Board) : list (list string) :=
  imap (fun i row =>
    imap (fun j cell =>
      let i := Z.of_nat i in
      let j := Z.of_nat j in
      if (i =? 0) && (j =? 0) then ""%string
      else if i =? 0 then default ""%string (columnMap !! (j - 1))
      else if j =? 0 then Itoa i
      else Cell_Render cell) row) (Rows b).

(** ** A turn and the game loop *)

Section Game.

(** [strings.TrimSpace] of the Go library: any function on strings. *)
Variable TrimSpace : string → string.

(** [Turn] on the line [input] returned by [captureInput]: the board
    afterwards and the error returned; [None] is a panic. *)
Definition Turn (b : Board) (input : string) : option (Board * option inputError) :=
  let '(row, column, err) := validateInput b (TrimSpace input) in
  match err with
  | Some e => Some (b, Some e)
  | None =>
      b1 ← move b row column;
      Some ({| Rows := Rows b1; playerOneTurn := negb (playerOneTurn b1);
               playerOneRow := playerOneRow b1; playerOneCol := playerOneCol b1;
               playerTwoRow := playerTwoRow b1; playerTwoCol := playerTwoCol b1 |},
            None)
  end.

(** The loop of [main] over the lines typed so far: an error is
    printed and the loop continues.  [Render] and the printing write
    to the terminal and leave the board as it is. *)
Fixpoint mainLoop (board : Board) (stdin : list string) : option Board :=
  match stdin with
  | [] => Some board
  | input :: rest =>
      match Turn board input with
      | None => None
      | Some (board', _) => mainLoop board' rest
      end
  end.

(** [plays b n b']: the loop takes [b] to [b'] with [n] turns that
    returned nil and any number that returned an error. *)
Inductive plays : Board → nat → Board → Prop :=
| plays_done b : plays b 0 b
| plays_move b input b1 n b' :
    Turn b input = Some (b1, None) → plays b1 n b' → plays b (S n) b'
| plays_reject b input e b1 n b' :
    Turn b input = Some (b1, Some e) → plays b1 n b' → plays b n b'.

(** The number of turns of the loop that returned nil. *)
Fixpoint movesApplied (board : Board) (stdin : list string) : nat :=
  match stdin with
  | [] => 0%nat
  | input :: rest =>
      match Turn board input with
      | None => 0%nat
      | Some (board', None) => S (movesApplied board' rest)
      | Some (board', Some _) => movesApplied board' rest
      end
  end.

End Game.

(** The first loop of [strings.TrimSpace], and its second: leading and
    trailing bytes among tab, newline, vertical tab, form feed,
    carriage return and space are dropped.  It is [strings.TrimSpace]
    on every string whose bytes are all below 128. *)
Module AsciiTrim.

Definition asciiSpace (c : ascii) : bool :=
  let v := byte_val c in
  (v =? 9) || (v =? 10) || (v =? 11) || (v =? 12) || (v =? 13) || (v =? 32).

Fixpoint trimLeft (s : string) : string :=
  match s with
  | String c s' => if asciiSpace c then trimLeft s' else s
  | EmptyString => s
  end.

Fixpoint trimRight (s : string) : string :=
  match s with
  | String c s' =>
      match trimRight s' with
      | EmptyString => if asciiSpace c then EmptyString else String c EmptyString
      | t => String c t
      end
  | EmptyString => s
  end.

Definition TrimSpace (s : string) : string := trimRight (trimLeft s).

End AsciiTrim.

(** A line as [ReadString] returns it, with its newline; the games
    played out below are typed in ASCII and trimmed by [trim]. *)
Definition newline : string := String (byte_of 10) EmptyString.

Definition line (s : string) : string := s +:+ newline.

Definition trim : string → string := AsciiTrim.TrimSpace.

(** ** Tokens, positions and the invariant of a game *)

(** A two-byte text, as [validateInput] indexes it: [text[0]] is the
    column letter and [text[1]] the row digit. *)
Definition token (letter digit : ascii) : string :=
  String letter (String digit EmptyString).

Definition isDigit (d : ascii) : bool := (48 <=? byte_val d) && (byte_val d <=? 57).

(** The table has [gridSize] rows of [gridSize] cells. *)
Definition grid_shape (rows : list (list Cell)) : Prop :=
  Z.of_nat (length rows) = gridSize
  ∧ Forall (λ row, Z.of_nat (length row) = gridSize) rows.

(** The player to move is PlayerOne when [playerOneTurn] holds; the
    cell a player's move writes and the position the board records
    for a player. *)
Definition mark (one : bool) : Cell :=
  mkCell (if one then Player1Occupied else Player2Occupied).

Definition position (one : bool) (b : Board) : Z * Z :=
  if one then (playerOneRow b, playerOneCol b)
  else (playerTwoRow b, playerTwoCol b).

(** The assignments of an applied turn, in the order [move] makes them. *)
Definition applied (b : Board) (r c : Z) (b' : Board) : Prop :=
  let one := playerOneTurn b in
  ∃ rows1,
    (if (position one b).1 >? 0
     then setCell (Rows b) (position one b).1 (position one b).2 (mkCell Block)
     else Some (Rows b)) = Some rows1
    ∧ setCell rows1 r c (mark one) = Some (Rows b')
    ∧ position one b' = (r, c)
    ∧ position (negb one) b' = position (negb one) b
    ∧ playerOneTurn b' = negb one.

(** The boards of a game: the shape of the table, the recorded
    positions, the header cells, and where the marks are. *)
Record Inv (b : Board) : Prop := {
  inv_shape : grid_shape (Rows b);
  inv_pos : ∀ one,
    position one b = (0, 0)
    ∨ (1 <= (position one b).1 < gridSize ∧ 1 <= (position one b).2 < gridSize);
  inv_header : ∀ i j, 0 <= i < gridSize → 0 <= j < gridSize → i = 0 ∨ j = 0 →
    getCell (Rows b) i j = Some (mkCell Available);
  inv_mark : ∀ one i j,
    getCell (Rows b) i j = Some (mark one) → (i, j) = position one b
}.

(** The cells the table shows, rows 1..8 and columns 1..8 (row 0 and
    column 0 are in the place of the labels), and those of them that
    are [Available]. *)
Definition playableCells : list (Z * Z) :=
  r ← seqZ 1 (gridSize - 1); c ← seqZ 1 (gridSize - 1); [(r, c)].

Definition emptyCells (b : Board) : list (Z * Z) :=
  filter (λ p, getCell (Rows b) p.1 p.2 = Some (mkCell Available)) playableCells.

(** The number of cells of the table in a given state. *)
Definition countStatus (s : cellStatus) (b : Board) : nat :=
  length (filter (λ cell, Status cell = s) (concat (Rows b))).

(** The cell is [Block] in [b'] and was not in [b]. *)
Definition newlyBlocked (b b' : Board) (i j : Z) : Prop :=
  getCell (Rows b') i j = Some (mkCell Block)
  ∧ getCell (Rows b) i j ≠ Some (mkCell Block).

(** The two header lines of the rendered table. *)
Definition tableCell (t : list (list string)) (i j : Z) : option string :=
  t !! Z.to_nat i ≫= λ row, row !! Z.to_nat j.
Definition columnLabel (b : Board) (c : Z) : option string := tableCell (Render b) 0 c.
Definition rowLabel (b : Board) (r : Z) : option string := tableCell (Render b) r 0.

(** The tokens A1, A2, ..., H8 of the 64 cells the table shows. *)
Definition allTokens : list string :=
  l ← seqZ 65 (gridSize - 1); d ← seqZ 49 (gridSize - 1); [token (byte_of l) (byte_of d)].

(** The entry [Render] appends for the cell [cell] at row [i] and
    column [j], and the strings a table can show. *)
Definition renderedEntry (i j : Z) (cell : Cell) : string :=
  if (i =? 0) && (j =? 0) then ""
  else if i =? 0 then default ""%string (columnMap !! (j - 1))
  else if j =? 0 then Itoa i
  else Cell_Render cell.

Definition shownStrings : list string :=
  [""; "A"; "B"; "C"; "D"; "E"; "F"; "G"; "H";
   "1"; "2"; "3"; "4"; "5"; "6"; "7"; "8"; "X"; "O"; "~"]%string.

(** A text that [validateInput] accepts, and one it accepts with row 9
    or column 9, a cell the table does not have. *)
Definition accepted (text : string) : bool :=
  match (validateInput newBoard text).2 with None => true | Some _ => false end.

Definition outsideTable (text : string) : bool :=
  match validateInput newBoard text with
  | (row, column, None) => (gridSize <=? row) || (gridSize <=? column)
  | _ => false
  end.

(** * Properties *)

(** ** The conversions on small inputs *)

Example trim_A7 : AsciiTrim.TrimSpace ("  A7 " +:+ newline) = "A7"%string.
Proof. vm_compute. reflexivity. Qed.

Example validateInput_A7 b : validateInput b "A7" = (7, 1, None).
Proof. vm_compute. reflexivity. Qed.
Example validateInput_A9 b : validateInput b "A9" = (9, 1, None).
Proof. vm_compute. reflexivity. Qed.
Example validateInput_Z1 b : validateInput b "Z1" = (-1, -1, Some (ErrColumnDoesNotExist "Z")).
Proof. vm_compute. reflexivity. Qed.
Example validateInput_AX b : validateInput b "AX" = (-1, -1, Some (ErrNotSerious 0)).
Proof. vm_compute. reflexivity. Qed.
Example allTokens_A1_H8 :
  length allTokens = 64%nat ∧ head allTokens = Some "A1"%string
  ∧ last allTokens = Some "H8"%string.
Proof. vm_compute. auto. Qed.
Example Itoa_8 : Itoa 8 = "8"%string /\ Itoa (-12) = "-12"%string /\ Itoa 0 = "0"%string.
Proof. vm_compute. auto. Qed.

(** ** Tokens: what [validateInput] does on each byte *)

Lemma byte_of_val (c : ascii) : byte_of (byte_val c) = c.
Proof.
  unfold byte_of, byte_val.
  assert (H := N_ascii_bounded c).
  rewrite Z.mod_small by lia.
  rewrite N2Z.id. apply ascii_N_embedding.
Qed.

Ltac each_byte c :=
  destruct c as [[] [] [] [] [] [] [] []]; vm_compute; try reflexivity.

(** [Atoi] on the one-character string of a byte: the digit's value,
    or a syntax error with value 0. *)
Lemma Atoi_byte (d : ascii) :
  Atoi (string_of_byte d) =
  if (48 <=? byte_val d) && (byte_val d <=? 57)
  then (byte_val d - 48, None) else (0, Some ErrSyntax).
Proof. each_byte d. Qed.

(** The inverted column table on the string of a byte: A..I are 1..9. *)
Lemma columnMapInverted_byte (l : ascii) :
  columnMapInverted !! string_of_byte l =
  if (65 <=? byte_val l) && (byte_val l <=? 73)
  then Some (byte_val l - 64) else None.
Proof. each_byte l. Qed.

Lemma validateInput_token (b : Board) (letter digit : ascii) :
  validateInput b (token letter digit) =
  if negb (isDigit digit) then (-1, -1, Some (ErrNotSerious 0))
  else if (byte_val digit - 48 >? gridSize) || (byte_val digit - 48 <? 1)
       then (-1, -1, Some (ErrRowDoesNotExist (byte_val digit - 48)))
  else if (65 <=? byte_val letter) && (byte_val letter <=? 73)
       then (byte_val digit - 48, byte_val letter - 64, None)
  else (-1, -1, Some (ErrColumnDoesNotExist (string_of_byte letter))).
Proof.
  unfold validateInput, token, isDigit. rewrite Atoi_byte.
  destruct ((48 <=? byte_val digit) && (byte_val digit <=? 57)); simpl; [|reflexivity].
  destruct ((byte_val digit - 48 >? gridSize) || (byte_val digit - 48 <? 1)); [reflexivity|].
  rewrite columnMapInverted_byte.
  destruct ((65 <=? byte_val letter) && (byte_val letter <=? 73)); reflexivity.
Qed.

(** A token is accepted only if it is a letter A..I followed by a digit
    1..9, and then the row is the digit and the column the rank of the
    letter. *)
Lemma validateInput_accepted (b : Board) (text : string) (r c : Z) :
  validateInput b text = (r, c, None) →
  ∃ letter digit, text = token letter digit
    ∧ 65 <= byte_val letter <= 73 ∧ 49 <= byte_val digit <= 57
    ∧ r = byte_val digit - 48 ∧ c = byte_val letter - 64.
Proof.
  destruct text as [|letter [|digit [|x rest]]]; try discriminate.
  change (String letter (String digit "")) with (token letter digit).
  rewrite validateInput_token. unfold isDigit, gridSize. intros H.
  exists letter, digit. split; [reflexivity|].
  repeat match type of H with
         | context [if ?c then _ else _] => destruct c eqn:?; simpl in H
         end; try discriminate.
  inversion H; subst. lia.
Qed.

Lemma validateInput_playable (b : Board) (letter digit : ascii) :
  65 <= byte_val letter <= 72 → 49 <= byte_val digit <= 56 →
  validateInput b (token letter digit)
  = (byte_val digit - 48, byte_val letter - 64, None).
Proof.
  intros Hl Hd. rewrite validateInput_token. unfold isDigit, gridSize.
  replace ((48 <=? byte_val digit) && (byte_val digit <=? 57)) with true by lia.
  replace ((byte_val digit - 48 >? 9) || (byte_val digit - 48 <? 1)) with false by lia.
  replace ((65 <=? byte_val letter) && (byte_val letter <=? 73)) with true by lia.
  reflexivity.
Qed.

Lemma validateInput_bounds (b : Board) (text : string) (r c : Z) :
  validateInput b text = (r, c, None) → 1 <= r <= gridSize ∧ 1 <= c <= gridSize.
Proof.
  intros H. apply validateInput_accepted in H as (l & d & _ & ? & ? & -> & ->).
  unfold gridSize. lia.
Qed.

(** ** Cells of the table: reading after writing *)

Lemma grid_shape_rows rows :
  grid_shape rows ↔
  Z.of_nat (length rows) = gridSize
  ∧ ∀ i row, rows !! i = Some row → Z.of_nat (length row) = gridSize.
Proof.
  unfold grid_shape. rewrite Forall_lookup. reflexivity.
Qed.

Lemma setCell_inv rows r c v rows' :
  setCell rows r c v = Some rows' →
  ∃ row, 0 <= r ∧ rows !! Z.to_nat r = Some row
    ∧ 0 <= c < Z.of_nat (length row)
    ∧ rows' = <[Z.to_nat r := <[Z.to_nat c := v]> row]> rows.
Proof.
  unfold setCell. destruct (r <? 0) eqn:Hr; [discriminate|].
  destruct (rows !! Z.to_nat r) as [row|] eqn:Hrow; [|discriminate].
  destruct ((c <? 0) || (Z.of_nat (length row) <=? c)) eqn:Hc; [discriminate|].
  intros [= <-]. exists row. repeat split; try lia; auto.
Qed.

Lemma setCell_same rows r c v rows' :
  setCell rows r c v = Some rows' → getCell rows' r c = Some v.
Proof.
  intros (row & Hr & Hrow & Hc & ->)%setCell_inv.
  unfold getCell. replace ((r <? 0) || (c <? 0)) with false by lia.
  rewrite list_lookup_insert_eq by (apply lookup_lt_Some in Hrow; lia).
  simpl. apply list_lookup_insert_eq. lia.
Qed.

Lemma setCell_other rows r c v rows' i j :
  setCell rows r c v = Some rows' → (i, j) ≠ (r, c) →
  getCell rows' i j = getCell rows i j.
Proof.
  intros (row & Hr & Hrow & Hc & ->)%setCell_inv Hne.
  unfold getCell. destruct ((i <? 0) || (j <? 0)) eqn:Hij; [reflexivity|].
  destruct (decide (i = r)) as [->|Hi].
  - rewrite list_lookup_insert_eq by (apply lookup_lt_Some in Hrow; lia).
    rewrite Hrow. simpl. apply list_lookup_insert_ne.
    intros E. apply Hne. f_equal. lia.
  - rewrite list_lookup_insert_ne by lia. reflexivity.
Qed.

Lemma setCell_shape rows r c v rows' :
  setCell rows r c v = Some rows' → grid_shape rows → grid_shape rows'.
Proof.
  intros (row & Hr & Hrow & Hc & ->)%setCell_inv [Hlen Hrows]%grid_shape_rows.
  apply grid_shape_rows. split.
  - rewrite length_insert. exact Hlen.
  - intros i row' Hi. destruct (decide (i = Z.to_nat r)) as [->|Hne].
    + rewrite list_lookup_insert_eq in Hi by (apply lookup_lt_Some in Hrow; lia).
      injection Hi as <-. rewrite length_insert. eauto.
    + rewrite list_lookup_insert_ne in Hi by congruence. eauto.
Qed.

Lemma setCell_in_range rows r c v :
  grid_shape rows → 0 <= r < gridSize → 0 <= c < gridSize →
  ∃ rows', setCell rows r c v = Some rows'.
Proof.
  intros [Hlen Hrows]%grid_shape_rows Hr Hc. unfold setCell.
  replace (r <? 0) with false by lia.
  destruct (rows !! Z.to_nat r) as [row|] eqn:Hrow.
  - rewrite (Hrows _ _ Hrow).
    replace ((c <? 0) || (gridSize <=? c)) with false by lia. eauto.
  - apply lookup_ge_None in Hrow. lia.
Qed.

Lemma setCell_out_of_range rows r c v :
  grid_shape rows → gridSize <= r ∨ gridSize <= c → setCell rows r c v = None.
Proof.
  intros [Hlen Hrows]%grid_shape_rows Hrc. unfold setCell.
  destruct (r <? 0); [reflexivity|].
  destruct (rows !! Z.to_nat r) as [row|] eqn:Hrow; [|reflexivity].
  rewrite (Hrows _ _ Hrow).
  destruct Hrc as [Hr|Hc].
  - apply lookup_lt_Some in Hrow. lia.
  - replace (gridSize <=? c) with true by lia. rewrite orb_true_r. reflexivity.
Qed.

Lemma getCell_in_range rows r c :
  grid_shape rows → 0 <= r < gridSize → 0 <= c < gridSize →
  ∃ cell, getCell rows r c = Some cell.
Proof.
  intros [Hlen Hrows]%grid_shape_rows Hr Hc. unfold getCell.
  replace ((r <? 0) || (c <? 0)) with false by lia.
  destruct (rows !! Z.to_nat r) as [row|] eqn:Hrow.
  - simpl. destruct (row !! Z.to_nat c) as [cell|] eqn:Hcell; [eauto|].
    apply lookup_ge_None in Hcell. apply Hrows in Hrow. lia.
  - apply lookup_ge_None in Hrow. lia.
Qed.

Lemma newBoard_shape : grid_shape (Rows newBoard).
Proof.
  split; [reflexivity|]. vm_compute. repeat constructor.
Qed.

Lemma newBoard_cells i j cell :
  getCell (Rows newBoard) i j = Some cell → cell = mkCell Available.
Proof.
  unfold getCell. destruct ((i <? 0) || (j <? 0)); [discriminate|].
  destruct (Rows newBoard !! Z.to_nat i) as [row|] eqn:Hrow; [|discriminate].
  simpl. intros Hcell.
  apply list_elem_of_lookup_2 in Hrow, Hcell.
  assert (H : Forall (Forall (λ c, c = mkCell Available)) (Rows newBoard))
    by (vm_compute; repeat constructor).
  rewrite Forall_forall in H. specialize (H _ Hrow).
  rewrite Forall_forall in H. auto.
Qed.

(** ** One turn *)

Section TurnFacts.

Variable TrimSpace : string → string.

Lemma Turn_applied b input b' :
  Turn TrimSpace b input = Some (b', None) →
  ∃ r c, validateInput b (TrimSpace input) = (r, c, None) ∧ applied b r c b'.
Proof.
  unfold Turn, applied.
  destruct (validateInput b (TrimSpace input)) as [[r c] [e|]] eqn:Hv; [discriminate|].
  destruct (move b r c) as [b1|] eqn:Hm; [|discriminate].
  simpl. intros [= <-]. exists r, c. split; [reflexivity|].
  unfold move in Hm. destruct (playerOneTurn b) eqn:Hone; simpl in *.
  - destruct (if playerOneRow b >? 0 then _ else _) as [rows1|] eqn:H1; [|discriminate].
    simpl in Hm.
    destruct (setCell rows1 r c _) as [rows2|] eqn:H2; [|discriminate].
    injection Hm as <-. simpl. exists rows1. auto.
  - destruct (if playerTwoRow b >? 0 then _ else _) as [rows1|] eqn:H1; [|discriminate].
    simpl in Hm.
    destruct (setCell rows1 r c _) as [rows2|] eqn:H2; [|discriminate].
    injection Hm as <-. simpl. exists rows1. auto.
Qed.

Lemma Turn_rejected b input b' e :
  Turn TrimSpace b input = Some (b', Some e) →
  b' = b ∧ (validateInput b (TrimSpace input)).2 = Some e.
Proof.
  unfold Turn.
  destruct (validateInput b (TrimSpace input)) as [[r c] [e'|]] eqn:Hv.
  - intros [= <- <-]. auto.
  - destruct (move b r c); discriminate.
Qed.

End TurnFacts.

(** ** The invariant is kept *)

Lemma newBoard_Inv : Inv newBoard.
Proof.
  split.
  - apply newBoard_shape.
  - intros []; left; reflexivity.
  - intros i j Hi Hj _.
    destruct (getCell_in_range (Rows newBoard) i j newBoard_shape Hi Hj) as [cell Hc].
    rewrite Hc. f_equal. eapply newBoard_cells, Hc.
  - intros one i j H. apply newBoard_cells in H. destruct one; discriminate.
Qed.

(** What an applied turn leaves in each cell. *)
Lemma applied_cells b r c b' :
  Inv b → applied b r c b' →
  let one := playerOneTurn b in
  getCell (Rows b') r c = Some (mark one)
  ∧ (∀ i j, (i, j) ≠ (r, c) → (i, j) = position one b → 0 < i →
       getCell (Rows b') i j = Some (mkCell Block))
  ∧ (∀ i j, (i, j) ≠ (r, c) →
       (i, j) ≠ position one b ∨ (position one b).1 <= 0 →
       getCell (Rows b') i j = getCell (Rows b) i j).
Proof.
  intros HI (rows1 & H1 & H2 & Hp & Hq & Ht). simpl.
  split; [eapply setCell_same, H2|]. split.
  - intros i j Hne Hij Hpos. rewrite (setCell_other _ _ _ _ _ _ _ H2 Hne).
    rewrite <- Hij in H1. simpl in H1.
    replace (i >? 0) with true in H1 by lia.
    eapply setCell_same, H1.
  - intros i j Hne Hij. rewrite (setCell_other _ _ _ _ _ _ _ H2 Hne).
    destruct ((position (playerOneTurn b) b).1 >? 0) eqn:Hmoved.
    + eapply setCell_other; [exact H1|].
      destruct (position (playerOneTurn b) b). simpl in *.
      destruct Hij as [Hij|Hij]; [exact Hij|lia].
    + injection H1 as <-. reflexivity.
Qed.

Lemma applied_in_range b r c b' :
  Inv b → applied b r c b' → 0 <= r < gridSize ∧ 0 <= c < gridSize.
Proof.
  intros HI (rows1 & H1 & H2 & _).
  assert (Hs : grid_shape rows1).
  { destruct ((position (playerOneTurn b) b).1 >? 0).
    - eapply setCell_shape; [exact H1|apply HI].
    - injection H1 as <-. apply HI. }
  apply setCell_inv in H2 as (row & Hr & Hrow & Hc & _).
  apply grid_shape_rows in Hs as [Hlen Hrows]. rewrite (Hrows _ _ Hrow) in Hc.
  apply lookup_lt_Some in Hrow. lia.
Qed.

Lemma applied_Inv b r c b' :
  Inv b → 1 <= r → 1 <= c → applied b r c b' → Inv b'.
Proof.
  intros HI Hr Hc Ha.
  destruct (applied_in_range _ _ _ _ HI Ha) as [Hr9 Hc9].
  assert (Hcells := applied_cells _ _ _ _ HI Ha).
  unfold applied in Ha. cbv zeta in Ha, Hcells.
  remember (playerOneTurn b) as one eqn:Hone.
  destruct Hcells as (Hdest & Hold & Hrest).
  destruct Ha as (rows1 & H1 & H2 & Hp & Hq & Ht).
  assert (Hposb := inv_pos b HI one).
  split.
  - eapply setCell_shape; [exact H2|].
    destruct ((position one b).1 >? 0).
    + eapply setCell_shape; [exact H1|apply HI].
    + injection H1 as <-. apply HI.
  - intros p. destruct (decide (p = one)) as [->|Hne].
    + rewrite Hp. simpl. right. lia.
    + replace p with (negb one) by (destruct p, one; simpl; congruence).
      rewrite Hq. apply HI.
  - intros i j Hi Hj H0. rewrite Hrest.
    + apply HI; assumption.
    + intros [= -> ->]. lia.
    + destruct Hposb as [E0|Hb].
      * right. rewrite E0. simpl. lia.
      * left. intros E. rewrite <- E in Hb. simpl in Hb. lia.
  - intros p i j Hcell.
    destruct (decide ((i, j) = (r, c))) as [[= -> ->]|Hne].
    + rewrite Hdest in Hcell.
      destruct (decide (p = one)) as [->|Hp'].
      * symmetry. exact Hp.
      * destruct p, one; unfold mark in Hcell; congruence.
    + destruct (decide ((i, j) = position one b)) as [E|Hne'].
      * destruct Hposb as [E0|Hb].
        -- rewrite E0 in E. injection E as -> ->.
           rewrite Hrest in Hcell by (rewrite ?E0; simpl; auto with lia).
           rewrite (inv_header b HI 0 0) in Hcell by (unfold gridSize; lia).
           destruct p; discriminate.
        -- rewrite (Hold i j Hne E) in Hcell
             by (rewrite <- E in Hb; simpl in Hb; lia).
           destruct p; discriminate.
      * rewrite (Hrest i j Hne (or_introl Hne')) in Hcell.
        apply (inv_mark b HI) in Hcell.
        destruct (decide (p = one)) as [->|Hp']; [contradiction|].
        replace p with (negb one) in * by (destruct p, one; simpl; congruence).
        rewrite Hq. exact Hcell.
Qed.

(** ** Games: boards reached by the loop *)

Section Games.

Variable TrimSpace : string → string.

Lemma mainLoop_plays board stdin board' :
  mainLoop TrimSpace board stdin = Some board' →
  plays TrimSpace board (movesApplied TrimSpace board stdin) board'.
Proof.
  revert board. induction stdin as [|input rest IH]; intros board; simpl.
  - intros [= <-]. constructor.
  - destruct (Turn TrimSpace board input) as [[b1 [e|]]|] eqn:HT; [| |discriminate].
    + intros H. eapply plays_reject; eauto.
    + intros H. eapply plays_move; eauto.
Qed.

Lemma mainLoop_plays_n board stdin board' n :
  mainLoop TrimSpace board stdin = Some board' →
  movesApplied TrimSpace board stdin = n →
  plays TrimSpace board n board'.
Proof. intros H <-. apply mainLoop_plays, H. Qed.

Lemma Turn_Inv b input b' err :
  Inv b → Turn TrimSpace b input = Some (b', err) → Inv b'.
Proof.
  intros HI HT. destruct err as [e|].
  - apply Turn_rejected in HT as [-> _]. exact HI.
  - apply Turn_applied in HT as (r & c & Hv & Ha).
    apply validateInput_bounds in Hv as [Hr Hc].
    eapply applied_Inv; [exact HI| | |exact Ha]; lia.
Qed.

Lemma plays_Inv b n b' : Inv b → plays TrimSpace b n b' → Inv b'.
Proof.
  intros HI Hp. induction Hp; eauto using Turn_Inv.
Qed.

Lemma plays_turn b n b' :
  plays TrimSpace b n b' →
  playerOneTurn b' = if Nat.even n then playerOneTurn b else negb (playerOneTurn b).
Proof.
  induction 1 as [b|b input b1 n b' HT _ IH|b input e b1 n b' HT _ IH].
  - reflexivity.
  - apply Turn_applied in HT as (r & c & _ & rows1 & _ & _ & _ & _ & Ht).
    rewrite IH, Ht. rewrite Nat.even_succ, <- Nat.negb_even.
    destruct (Nat.even n), (playerOneTurn b); reflexivity.
  - apply Turn_rejected in HT as [-> _]. exact IH.
Qed.

(** An applied turn never makes a cell [Available], and changes the
    cell of the move and the cell the mover leaves, no other. *)
Lemma applied_status b r c b' i j s :
  Inv b → applied b r c b' →
  getCell (Rows b) i j = Some (mkCell s) → s ≠ Available →
  ∃ s', getCell (Rows b') i j = Some (mkCell s') ∧ s' ≠ Available
        ∧ ((i, j) ≠ (r, c) → s = Block → s' = Block).
Proof.
  intros HI Ha Hcell Hs.
  destruct (applied_cells _ _ _ _ HI Ha) as (Hdest & Hold & Hrest).
  cbv zeta in *.
  destruct (decide ((i, j) = (r, c))) as [[= -> ->]|Hne].
  - eexists. split; [exact Hdest|]. destruct (playerOneTurn b); split; congruence.
  - destruct (decide ((i, j) = position (playerOneTurn b) b)) as [E|Hne'].
    + destruct (inv_pos b HI (playerOneTurn b)) as [E0|Hb].
      * rewrite E0 in E. injection E as -> ->.
        rewrite (inv_header b HI 0 0) in Hcell by (unfold gridSize; lia).
        congruence.
      * exists Block. rewrite (Hold i j Hne E) by (rewrite <- E in Hb; simpl in Hb; lia).
        split; [reflexivity|]. split; congruence.
    + exists s. rewrite (Hrest i j Hne (or_introl Hne')). auto.
Qed.

End Games.

(** The first assignment of [move], at the position the mover leaves,
    is in range on every board of a game. *)
Lemma prior_blocked b :
  Inv b →
  ∃ rows1,
    (if (position (playerOneTurn b) b).1 >? 0
     then setCell (Rows b) (position (playerOneTurn b) b).1
            (position (playerOneTurn b) b).2 (mkCell Block)
     else Some (Rows b)) = Some rows1 ∧ grid_shape rows1.
Proof.
  intros HI. assert (Hpos := inv_pos b HI (playerOneTurn b)).
  destruct ((position (playerOneTurn b) b).1 >? 0) eqn:Hm.
  - destruct Hpos as [E|[H1 H2]]; [rewrite E in Hm; discriminate|].
    destruct (setCell_in_range (Rows b) (position (playerOneTurn b) b).1
                (position (playerOneTurn b) b).2 (mkCell Block) (inv_shape b HI))
      as [rows1 Hs]; try lia.
    exists rows1. split; [exact Hs|]. eapply setCell_shape; [exact Hs|apply HI].
  - exists (Rows b). split; [reflexivity|apply HI].
Qed.

Lemma move_succeeds b r c :
  Inv b → 0 <= r < gridSize → 0 <= c < gridSize → ∃ b1, move b r c = Some b1.
Proof.
  intros HI Hr Hc. unfold move.
  destruct (prior_blocked b HI) as (rows1 & H1 & Hshape).
  destruct (playerOneTurn b); simpl in H1; rewrite H1; simpl;
    destruct (setCell_in_range rows1 r c (mkCell Player1Occupied) Hshape Hr Hc) as [ra Ha];
    destruct (setCell_in_range rows1 r c (mkCell Player2Occupied) Hshape Hr Hc) as [rb Hb];
    rewrite ?Ha, ?Hb; simpl; eauto.
Qed.

(** A destination in row 9 or in column 9 is outside the table: [move]
    panics on every board of a game. *)
Lemma move_panics b r c :
  Inv b → gridSize <= r ∨ gridSize <= c → move b r c = None.
Proof.
  intros HI Hrc. unfold move.
  destruct (prior_blocked b HI) as (rows1 & H1 & Hshape).
  destruct (playerOneTurn b); simpl in H1; rewrite H1; simpl;
    rewrite (setCell_out_of_range rows1 r c _ Hshape Hrc); reflexivity.
Qed.

Section Claims.

Variable TrimSpace : string → string.

(** C5. From the initial board, after [n] applied moves, with rejected
    attempts in between, it is PlayerOne's turn when [n] is even and
    PlayerTwo's when [n] is odd, and the prompt names that player. *)
Theorem turn_alternation (n : nat) (b : Board) :
  plays TrimSpace newBoard n b →
  playerOneTurn b = Nat.even n
  ∧ playerTurn b = (if Nat.even n then "Player One" else "Player Two")%string.
Proof.
  intros Hp. apply plays_turn in Hp. simpl in Hp.
  assert (E : playerOneTurn b = Nat.even n) by (rewrite Hp; destruct (Nat.even n); reflexivity).
  split; [exact E|]. unfold playerTurn. rewrite E.
  destruct (Nat.even n); reflexivity.
Qed.

(** C6. When the trimmed input fails validation, [Turn] returns that
    error and the board it leaves is the board it was given: cells, both
    positions and the turn; the loop goes on from the same state, so the
    same player is asked again. *)
Theorem rejected_input_keeps_state (b : Board) (input : string) (e : inputError) :
  (validateInput b (TrimSpace input)).2 = Some e →
  Turn TrimSpace b input = Some (b, Some e)
  ∧ ∀ rest, mainLoop TrimSpace b (input :: rest) = mainLoop TrimSpace b rest.
Proof.
  intros Hv.
  assert (HT : Turn TrimSpace b input = Some (b, Some e)).
  { unfold Turn. destruct (validateInput b (TrimSpace input)) as [[r c] err].
    simpl in Hv. subst err. reflexivity. }
  split; [exact HT|]. intros rest. simpl. rewrite HT. reflexivity.
Qed.

(** C9. In every board of a game started from a fresh board, the cells
    of row 0 and of column 0 are [Available]; an accepted token never
    names them, its row and column are at least 1. *)
Theorem header_cells_stay_available (n : nat) (b : Board) :
  plays TrimSpace newBoard n b →
  (∀ i j, 0 <= i < gridSize → 0 <= j < gridSize → i = 0 ∨ j = 0 →
     getCell (Rows b) i j = Some (mkCell Available))
  ∧ (∀ text r c, validateInput b text = (r, c, None) → 1 <= r ∧ 1 <= c).
Proof.
  intros Hp. split.
  - apply (inv_header b). eapply plays_Inv; [apply newBoard_Inv|exact Hp].
  - intros text r c Hv. apply validateInput_bounds in Hv. lia.
Qed.

(** C2, as the code has it. Through any number of turns of a game a
    [Block] cell never becomes [Available] again, and it stays [Block]
    through every applied turn whose destination is another cell; when
    it is the destination it takes the mover's mark. *)
Theorem blocked_never_available (n m : nat) (b0 b b' : Board) (i j : Z) :
  plays TrimSpace newBoard n b0 →
  getCell (Rows b0) i j = Some (mkCell Block) →
  plays TrimSpace b0 m b →
  (∃ s, getCell (Rows b) i j = Some (mkCell s) ∧ s ≠ Available)
  ∧ (∀ input,
       getCell (Rows b) i j = Some (mkCell Block) →
       Turn TrimSpace b input = Some (b', None) →
       ∃ r c, validateInput b (TrimSpace input) = (r, c, None)
         ∧ if decide ((i, j) = (r, c))
           then getCell (Rows b') i j = Some (mark (playerOneTurn b))
           else getCell (Rows b') i j = Some (mkCell Block)).
Proof.
  intros H0 Hcell Hp.
  assert (HI0 : Inv b0) by (eapply plays_Inv; [apply newBoard_Inv|exact H0]).
  split.
  - assert (G : ∃ s, getCell (Rows b0) i j = Some (mkCell s) ∧ s ≠ Available)
      by (exists Block; split; [exact Hcell|discriminate]).
    clear Hcell H0. induction Hp as [b|b input b1 k b2 HT _ IH|b input e b1 k b2 HT _ IH].
    + exact G.
    + apply IH; [eapply Turn_Inv; eauto|].
      destruct G as (s & Hs & Hna).
      apply Turn_applied in HT as (r & c & _ & Ha).
      destruct (applied_status _ _ _ _ _ _ _ HI0 Ha Hs Hna) as (s' & ? & ? & _).
      eauto.
    + apply Turn_rejected in HT as [-> _]. apply IH; assumption.
  - intros input Hb HT.
    assert (HI : Inv b) by (eapply plays_Inv; eauto).
    apply Turn_applied in HT as (r & c & Hv & Ha).
    exists r, c. split; [exact Hv|].
    destruct (applied_cells _ _ _ _ HI Ha) as (Hdest & _ & _).
    destruct (decide ((i, j) = (r, c))) as [[= -> ->]|Hne]; [exact Hdest|].
    destruct (applied_status _ _ _ _ i j Block HI Ha Hb) as (s' & Hs' & _ & Hk);
      [discriminate|].
    rewrite Hs', Hk; auto.
Qed.

(** C3, as the code has it. An applied turn of a game writes the mover's
    mark in the destination and records it as the mover's position;
    afterwards the destination is the one cell with the mover's mark.
    The position the mover leaves becomes [Block] when there is one and
    it is not the destination.  No other cell changes, so the cells
    that newly become [Block] are: the position left, when it is not
    the destination and was not [Block] already; otherwise none. *)
Theorem move_effect (n : nat) (b b' : Board) (input : string) :
  plays TrimSpace newBoard n b →
  Turn TrimSpace b input = Some (b', None) →
  ∃ r c, validateInput b (TrimSpace input) = (r, c, None)
    ∧ position (playerOneTurn b) b' = (r, c)
    ∧ (∀ i j, getCell (Rows b') i j = Some (mark (playerOneTurn b)) ↔ (i, j) = (r, c))
    ∧ (∀ i j, (i, j) = position (playerOneTurn b) b → 0 < i → (i, j) ≠ (r, c) →
         getCell (Rows b') i j = Some (mkCell Block))
    ∧ (∀ i j, (i, j) ≠ (r, c) → (i, j) ≠ position (playerOneTurn b) b →
         getCell (Rows b') i j = getCell (Rows b) i j)
    ∧ (∀ i j, newlyBlocked b b' i j ↔
         (i, j) = position (playerOneTurn b) b ∧ 0 < i ∧ (i, j) ≠ (r, c)
         ∧ getCell (Rows b) i j ≠ Some (mkCell Block)).
Proof.
  intros Hp HT.
  assert (HI : Inv b) by (eapply plays_Inv; [apply newBoard_Inv|exact Hp]).
  assert (HI' : Inv b') by (eapply Turn_Inv; eauto).
  apply Turn_applied in HT as (r & c & Hv & Ha).
  destruct (applied_cells _ _ _ _ HI Ha) as (Hdest & Hold & Hrest). cbv zeta in *.
  assert (Hpos' : position (playerOneTurn b) b' = (r, c))
    by (destruct Ha as (? & _ & _ & Hq & _); exact Hq).
  exists r, c.
  split; [exact Hv|]. split; [exact Hpos'|]. split; [|split; [|split]].
  - intros i j. split.
    + intros H. apply (inv_mark b' HI') in H. congruence.
    + intros [= -> ->]. exact Hdest.
  - intros i j E Hi Hne. apply Hold; assumption.
  - intros i j Hne Hne'. apply Hrest; auto.
  - intros i j. split.
    + intros [Hb' Hb].
      destruct (decide ((i, j) = (r, c))) as [[= -> ->]|Hne].
      { rewrite Hdest in Hb'. destruct (playerOneTurn b); discriminate. }
      destruct (decide ((i, j) = position (playerOneTurn b) b)) as [E|Hne'].
      * destruct (Z_lt_le_dec 0 i) as [Hi|Hi]; [auto|].
        rewrite Hrest in Hb'; [contradiction|exact Hne|].
        right. rewrite <- E. simpl. lia.
      * rewrite Hrest in Hb' by auto. contradiction.
    + intros (E & Hi & Hne & Hb). split; [|exact Hb]. apply Hold; assumption.
Qed.

(** C4, as the code has it. After an applied turn it is the other
    player's turn, whatever the cells hold; no board of a game is final:
    each of the tokens A1..H8 is accepted and applied on it. *)
Theorem turn_always_passes (n : nat) (b : Board) :
  plays TrimSpace newBoard n b →
  (∀ input b', Turn TrimSpace b input = Some (b', None) →
     playerOneTurn b' = negb (playerOneTurn b))
  ∧ (∀ input letter digit,
       TrimSpace input = token letter digit →
       65 <= byte_val letter <= 72 → 49 <= byte_val digit <= 56 →
       ∃ b', Turn TrimSpace b input = Some (b', None)
             ∧ playerOneTurn b' = negb (playerOneTurn b)).
Proof.
  intros Hp.
  assert (HI : Inv b) by (eapply plays_Inv; [apply newBoard_Inv|exact Hp]).
  assert (Hflip : ∀ input b', Turn TrimSpace b input = Some (b', None) →
                              playerOneTurn b' = negb (playerOneTurn b)).
  { intros input b' HT.
    apply Turn_applied in HT as (r & c & _ & rows1 & _ & _ & _ & _ & Ht). exact Ht. }
  split; [exact Hflip|].
  intros input letter digit Htrim Hl Hd.
  assert (HT : ∃ b', Turn TrimSpace b input = Some (b', None)).
  { unfold Turn. rewrite Htrim, validateInput_playable by assumption.
    destruct (move_succeeds b (byte_val digit - 48) (byte_val letter - 64) HI)
      as [b1 Hm]; [unfold gridSize; lia..|].
    rewrite Hm. simpl. eauto. }
  destruct HT as [b' HT]. exists b'. split; [exact HT|]. eapply Hflip, HT.
Qed.

End Claims.

(** C1, as the code has it. Validation reads the token and nothing of
    the board: its result is the same on every board; the token of a
    cell A1..H8 is accepted with that cell's row and column whatever
    the cell holds; an accepted token is a letter A..I followed by a
    digit 1..9. *)
Theorem validation_reads_token_only (b b' : Board) (text : string) :
  validateInput b text = validateInput b' text
  ∧ (∀ letter digit, text = token letter digit →
       65 <= byte_val letter <= 72 → 49 <= byte_val digit <= 56 →
       validateInput b text = (byte_val digit - 48, byte_val letter - 64, None))
  ∧ (∀ r c, validateInput b text = (r, c, None) →
       ∃ letter digit, text = token letter digit
         ∧ 65 <= byte_val letter <= 73 ∧ 49 <= byte_val digit <= 57
         ∧ r = byte_val digit - 48 ∧ c = byte_val letter - 64).
Proof.
  split; [reflexivity|]. split.
  - intros letter digit -> Hl Hd. apply validateInput_playable; assumption.
  - intros r c. apply validateInput_accepted.
Qed.

(** C7, as the code has it. On a two-character token: a second
    character that is not a decimal digit gives the error of the failed
    conversion, which is not the row error; the digit 0 gives the row
    error; with a digit 1..8 the row check passes, the error if any is
    about the column. *)
Theorem row_check (b : Board) (letter digit : ascii) :
  (isDigit digit = false →
     validateInput b (token letter digit) = (-1, -1, Some (ErrNotSerious 0)))
  ∧ (byte_val digit = 48 →
     validateInput b (token letter digit) = (-1, -1, Some (ErrRowDoesNotExist 0)))
  ∧ (49 <= byte_val digit <= 56 →
     validateInput b (token letter digit)
       = (byte_val digit - 48, byte_val letter - 64, None)
     ∨ validateInput b (token letter digit)
       = (-1, -1, Some (ErrColumnDoesNotExist (string_of_byte letter)))).
Proof.
  rewrite validateInput_token. unfold isDigit, gridSize. repeat split.
  - intros ->. reflexivity.
  - intros ->. reflexivity.
  - intros Hd.
    replace ((48 <=? byte_val digit) && (byte_val digit <=? 57)) with true by lia.
    replace ((byte_val digit - 48 >? 9) || (byte_val digit - 48 <? 1)) with false by lia.
    simpl. destruct ((65 <=? byte_val letter) && (byte_val letter <=? 73)); auto.
Qed.

Lemma tableCell_Render b i j :
  grid_shape (Rows b) → 0 <= i < gridSize → 0 <= j < gridSize →
  ∃ cell, getCell (Rows b) i j = Some cell ∧
  tableCell (Render b) i j =
  Some (if (i =? 0) && (j =? 0) then ""%string
        else if i =? 0 then default ""%string (columnMap !! (j - 1))
        else if j =? 0 then Itoa i
        else Cell_Render cell).
Proof.
  intros Hs Hi Hj.
  destruct (getCell_in_range _ i j Hs Hi Hj) as [cell Hcell].
  exists cell. split; [exact Hcell|].
  unfold getCell in Hcell. replace ((i <? 0) || (j <? 0)) with false in Hcell by lia.
  unfold tableCell, Render. rewrite list_lookup_imap.
  destruct (Rows b !! Z.to_nat i) as [row|]; [|discriminate]. simpl in *.
  rewrite list_lookup_imap, Hcell. simpl.
  rewrite !Z2Nat.id by lia. reflexivity.
Qed.

(** C8. On a 9x9 board, for every token A1..H8: validation returns the
    row of the digit and the column of the letter, and the table shows
    that letter above the column and that digit before the row; and for
    every cell of rows 1..8 and columns 1..8 the two labels the table
    shows for it form a token that validation takes back to the cell. *)
Theorem parse_render_inverse (b : Board) :
  grid_shape (Rows b) →
  (∀ letter digit,
     65 <= byte_val letter <= 72 → 49 <= byte_val digit <= 56 →
     validateInput b (token letter digit)
       = (byte_val digit - 48, byte_val letter - 64, None)
     ∧ columnLabel b (byte_val letter - 64) = Some (String letter EmptyString)
     ∧ rowLabel b (byte_val digit - 48) = Some (String digit EmptyString))
  ∧ (∀ r c, 1 <= r <= 8 → 1 <= c <= 8 →
     ∃ letter digit,
       columnLabel b c = Some (String letter EmptyString)
       ∧ rowLabel b r = Some (String digit EmptyString)
       ∧ validateInput b (token letter digit) = (r, c, None)).
Proof.
  intros Hs.
  assert (Hcol : ∀ c, 1 <= c <= 8 →
            columnLabel b c = Some (String (byte_of (64 + c)) EmptyString)).
  { intros c Hc. unfold columnLabel.
    destruct (tableCell_Render b 0 c Hs) as (cell & _ & ->); [unfold gridSize; lia..|].
    assert (E : c = 1 ∨ c = 2 ∨ c = 3 ∨ c = 4 ∨ c = 5 ∨ c = 6 ∨ c = 7 ∨ c = 8) by lia.
    destruct E as [->|[->|[->|[->|[->|[->|[->| ->]]]]]]]; vm_compute; reflexivity. }
  assert (Hrow : ∀ r, 1 <= r <= 8 →
            rowLabel b r = Some (String (byte_of (48 + r)) EmptyString)).
  { intros r Hr. unfold rowLabel.
    destruct (tableCell_Render b r 0 Hs) as (cell & _ & ->); [unfold gridSize; lia..|].
    assert (E : r = 1 ∨ r = 2 ∨ r = 3 ∨ r = 4 ∨ r = 5 ∨ r = 6 ∨ r = 7 ∨ r = 8) by lia.
    destruct E as [->|[->|[->|[->|[->|[->|[->| ->]]]]]]]; vm_compute; reflexivity. }
  assert (Hval : ∀ letter digit,
            65 <= byte_val letter <= 72 → 49 <= byte_val digit <= 56 →
            validateInput b (token letter digit)
            = (byte_val digit - 48, byte_val letter - 64, None)).
  { intros letter digit Hl Hd. apply validateInput_playable; assumption. }
  split.
  - intros letter digit Hl Hd. split; [auto|]. split.
    + rewrite Hcol by lia. replace (64 + (byte_val letter - 64)) with (byte_val letter) by lia.
      rewrite byte_of_val. reflexivity.
    + rewrite Hrow by lia. replace (48 + (byte_val digit - 48)) with (byte_val digit) by lia.
      rewrite byte_of_val. reflexivity.
  - intros r c Hr Hc. exists (byte_of (64 + c)), (byte_of (48 + r)).
    split; [auto|]. split; [auto|].
    assert (El : byte_val (byte_of (64 + c)) = 64 + c).
    { unfold byte_val, byte_of. rewrite Z.mod_small by lia.
      rewrite N_ascii_embedding by lia. lia. }
    assert (Ed : byte_val (byte_of (48 + r)) = 48 + r).
    { unfold byte_val, byte_of. rewrite Z.mod_small by lia.
      rewrite N_ascii_embedding by lia. lia. }
    rewrite Hval by lia. rewrite El, Ed. repeat f_equal; lia.
Qed.

(** On every board of a game, a token with the letter I or the digit 9
    passes validation and the turn panics. *)
Lemma Turn_panics_outside_table (TrimSpace : string → string) n b input letter digit :
  plays TrimSpace newBoard n b →
  TrimSpace input = token letter digit →
  65 <= byte_val letter <= 73 → 49 <= byte_val digit <= 57 →
  byte_val letter = 73 ∨ byte_val digit = 57 →
  (validateInput b (TrimSpace input)).2 = None ∧ Turn TrimSpace b input = None.
Proof.
  intros Hp Htrim Hl Hd Hout.
  assert (HI : Inv b) by (eapply plays_Inv; [apply newBoard_Inv|exact Hp]).
  assert (Hv : validateInput b (token letter digit)
               = (byte_val digit - 48, byte_val letter - 64, None)).
  { rewrite validateInput_token. unfold isDigit, gridSize.
    replace ((48 <=? byte_val digit) && (byte_val digit <=? 57)) with true by lia.
    replace ((byte_val digit - 48 >? 9) || (byte_val digit - 48 <? 1)) with false by lia.
    replace ((65 <=? byte_val letter) && (byte_val letter <=? 73)) with true by lia.
    reflexivity. }
  unfold Turn. rewrite Htrim, Hv. split; [reflexivity|].
  rewrite move_panics; [reflexivity|exact HI|unfold gridSize; lia].
Qed.

(** ** Games played out *)

(** C10. The tokens A9 and I1 are accepted, with row 9 and with column
    9; the table has rows and columns 0..8, there is no such cell, and
    the assignment of [move] is out of range: the turn panics. *)
Theorem accepted_token_out_of_range :
  validateInput newBoard "A9" = (9, 1, None)
  ∧ getCell (Rows newBoard) 9 1 = None
  ∧ move newBoard 9 1 = None
  ∧ Turn trim newBoard (line "A9") = None
  ∧ validateInput newBoard "I1" = (1, 9, None)
  ∧ getCell (Rows newBoard) 1 9 = None
  ∧ move newBoard 1 9 = None
  ∧ Turn trim newBoard (line "I1") = None.
Proof. vm_compute. repeat split; reflexivity. Qed.

(** C1, counterexample. After A1, B1, A2 the cell of A1 is [Block],
    that of A2 holds PlayerOne and that of B1 holds PlayerTwo, who is to
    move: validation accepts all three tokens, and the move to A1 is
    applied. On the fresh board, where no cell was visited, A9 is
    accepted although row 9 is not on the board. *)
Lemma validation_accepts_blocked_and_occupied :
  ∃ b3 b4,
    mainLoop trim newBoard (map line ["A1"; "B1"; "A2"]) = Some b3
    ∧ playerOneTurn b3 = false
    ∧ getCell (Rows b3) 1 1 = Some (mkCell Block)
    ∧ validateInput b3 "A1" = (1, 1, None)
    ∧ getCell (Rows b3) 2 1 = Some (mkCell Player1Occupied)
    ∧ validateInput b3 "A2" = (2, 1, None)
    ∧ getCell (Rows b3) 1 2 = Some (mkCell Player2Occupied)
    ∧ validateInput b3 "B1" = (1, 2, None)
    ∧ Turn trim b3 (line "A1") = Some (b4, None)
    ∧ validateInput newBoard "A9" = (9, 1, None)
    ∧ getCell (Rows newBoard) 9 1 = None.
Proof.
  do 2 eexists. split; [vm_compute; reflexivity|].
  do 7 (split; [vm_compute; reflexivity|]).
  split; [vm_compute; reflexivity|].
  split; vm_compute; reflexivity.
Qed.

(** C2, counterexample. After A1, B1, A2 the cell of A1 is [Block];
    PlayerTwo then moves to A1, and the cell holds PlayerTwo. *)
Lemma blocked_cell_reoccupied :
  ∃ b3 b4,
    mainLoop trim newBoard (map line ["A1"; "B1"; "A2"]) = Some b3
    ∧ getCell (Rows b3) 1 1 = Some (mkCell Block)
    ∧ Turn trim b3 (line "A1") = Some (b4, None)
    ∧ getCell (Rows b4) 1 1 = Some (mkCell Player2Occupied).
Proof.
  do 2 eexists. split; [vm_compute; reflexivity|].
  split; [vm_compute; reflexivity|].
  split; vm_compute; reflexivity.
Qed.

(** C3, counterexample. After A1, B1 PlayerOne is on A1 and makes a
    second move, to A1: the cell left is not [Block], it holds
    PlayerOne, and no cell has become [Block]. *)
Lemma self_move_blocks_nothing :
  ∃ b2 b3,
    mainLoop trim newBoard (map line ["A1"; "B1"]) = Some b2
    ∧ playerOneTurn b2 = true ∧ position true b2 = (1, 1)
    ∧ Turn trim b2 (line "A1") = Some (b3, None)
    ∧ getCell (Rows b3) 1 1 = Some (mkCell Player1Occupied)
    ∧ countStatus Block b2 = 0%nat ∧ countStatus Block b3 = 0%nat.
Proof.
  do 2 eexists. split; [vm_compute; reflexivity|].
  do 2 (split; [vm_compute; reflexivity|]).
  split; [vm_compute; reflexivity|].
  repeat split; vm_compute; reflexivity.
Qed.

(** C4, counterexample. The 64 moves A1, A2, ..., H8 are applied; the
    last is PlayerTwo's, no cell of rows 1..8 and columns 1..8 is
    [Available], and the turn passes to PlayerOne, whose next move, to
    A1, is applied and passes the turn again. *)
Lemma full_board_game_goes_on :
  ∃ b64 b65,
    mainLoop trim newBoard (map line allTokens) = Some b64
    ∧ movesApplied trim newBoard (map line allTokens) = 64%nat
    ∧ emptyCells b64 = []
    ∧ playerOneTurn b64 = true
    ∧ Turn trim b64 (line "A1") = Some (b65, None)
    ∧ playerOneTurn b65 = false.
Proof.
  do 2 eexists. split; [vm_compute; reflexivity|].
  do 3 (split; [vm_compute; reflexivity|]).
  split; vm_compute; reflexivity.
Qed.

(** C7, counterexample. The token AX, whose second character is not a
    digit, fails with the error of the conversion, not with the row
    error; the token A9 is accepted, with row 9. *)
Lemma row_check_counterexample :
  validateInput newBoard "AX" = (-1, -1, Some (ErrNotSerious 0))
  ∧ (∀ row, (validateInput newBoard "AX").2 ≠ Some (ErrRowDoesNotExist row))
  ∧ validateInput newBoard "A9" = (9, 1, None).
Proof. vm_compute. repeat split; try reflexivity. intros row H. discriminate. Qed.

(** ** The theorems on games played out *)

Ltac played lines :=
  apply mainLoop_plays_n with (stdin := lines); vm_compute; reflexivity.

(** C5 on the lines A1, zz, B2, C3: three moves applied, one rejected. *)
Lemma turn_alternation_witness :
  ∃ b, mainLoop trim newBoard (map line ["A1"; "zz"; "B2"; "C3"]) = Some b
       ∧ playerOneTurn b = Nat.even 3
       ∧ playerTurn b = "Player Two"%string.
Proof.
  eexists. split; [vm_compute; reflexivity|].
  apply (turn_alternation trim 3).
  played (map line ["A1"; "zz"; "B2"; "C3"]).
Defined.

(** C6 on the line Z1 typed on the fresh board. *)
Lemma rejected_input_keeps_state_witness :
  (validateInput newBoard (trim (line "Z1"))).2 = Some (ErrColumnDoesNotExist "Z")
  ∧ Turn trim newBoard (line "Z1") = Some (newBoard, Some (ErrColumnDoesNotExist "Z"))
  ∧ ∀ rest, mainLoop trim newBoard (line "Z1" :: rest) = mainLoop trim newBoard rest.
Proof.
  split; [vm_compute; reflexivity|].
  apply (rejected_input_keeps_state trim newBoard (line "Z1")).
  vm_compute. reflexivity.
Defined.

(** C9 on the board after A1, B1, A2. *)
Lemma header_cells_stay_available_witness :
  ∃ b, mainLoop trim newBoard (map line ["A1"; "B1"; "A2"]) = Some b
       ∧ getCell (Rows b) 0 1 = Some (mkCell Available)
       ∧ getCell (Rows b) 1 0 = Some (mkCell Available).
Proof.
  eexists. split; [vm_compute; reflexivity|].
  edestruct (header_cells_stay_available trim 3) as [H _].
  - played (map line ["A1"; "B1"; "A2"]).
  - split; apply H; unfold gridSize; lia.
Defined.

(** C2 as amended, on the cell of A1, [Block] after A1, B1, A2, and
    the next move, C3. *)
Lemma blocked_never_available_witness :
  ∃ b0 b,
    mainLoop trim newBoard (map line ["A1"; "B1"; "A2"]) = Some b0
    ∧ getCell (Rows b0) 1 1 = Some (mkCell Block)
    ∧ mainLoop trim b0 (map line ["C3"]) = Some b
    ∧ ∃ s, getCell (Rows b) 1 1 = Some (mkCell s) ∧ s ≠ Available.
Proof.
  do 2 eexists. split; [vm_compute; reflexivity|].
  split; [vm_compute; reflexivity|].
  split; [vm_compute; reflexivity|].
  refine (proj1 (blocked_never_available trim 3 1 _ _ newBoard 1 1 _ _ _)).
  - played (map line ["A1"; "B1"; "A2"]).
  - vm_compute. reflexivity.
  - played (map line ["C3"]).
Defined.

(** C3 as amended, on PlayerOne's second move, from A1 to A2. *)
Lemma move_effect_witness :
  ∃ b2 b3,
    mainLoop trim newBoard (map line ["A1"; "B1"]) = Some b2
    ∧ Turn trim b2 (line "A2") = Some (b3, None)
    ∧ ∃ r c, validateInput b2 (trim (line "A2")) = (r, c, None)
        ∧ position (playerOneTurn b2) b3 = (r, c)
        ∧ (∀ i j, getCell (Rows b3) i j = Some (mark (playerOneTurn b2)) ↔ (i, j) = (r, c))
        ∧ (∀ i j, newlyBlocked b2 b3 i j ↔
             (i, j) = position (playerOneTurn b2) b2 ∧ 0 < i ∧ (i, j) ≠ (r, c)
             ∧ getCell (Rows b2) i j ≠ Some (mkCell Block)).
Proof.
  do 2 eexists. split; [vm_compute; reflexivity|].
  split; [vm_compute; reflexivity|].
  match goal with
  | |- ∃ r c, validateInput ?b2 _ = _ ∧ position _ ?b3 = _ ∧ _ =>
      destruct (move_effect trim 2 b2 b3 (line "A2"))
        as (r & c & Hv & Hp & Hm & _ & _ & Hn)
  end.
  - played (map line ["A1"; "B1"]).
  - vm_compute. reflexivity.
  - exists r, c. split; [exact Hv|]. split; [exact Hp|]. split; [exact Hm|exact Hn].
Defined.

(** C4 as amended, on the board after A1, B1 and the line C3. *)
Lemma turn_always_passes_witness :
  ∃ b2, mainLoop trim newBoard (map line ["A1"; "B1"]) = Some b2
    ∧ ∃ b', Turn trim b2 (line "C3") = Some (b', None)
            ∧ playerOneTurn b' = negb (playerOneTurn b2).
Proof.
  eexists. split; [vm_compute; reflexivity|].
  edestruct (turn_always_passes trim 2) as [_ H].
  - played (map line ["A1"; "B1"]).
  - apply (H (line "C3") "C"%char "3"%char).
    + vm_compute. reflexivity.
    + split; apply Z.leb_le; reflexivity.
    + split; apply Z.leb_le; reflexivity.
Defined.

(** C1 as amended, on the token C5; the board is of no account. *)
Lemma validation_reads_token_only_witness :
  validateInput newBoard "C5" = (5, 3, None).
Proof.
  apply (proj1 (proj2 (validation_reads_token_only newBoard newBoard "C5"))
           "C"%char "5"%char).
  - reflexivity.
  - split; apply Z.leb_le; reflexivity.
  - split; apply Z.leb_le; reflexivity.
Defined.

(** C7 as amended, on the tokens A0, A? and A8. *)
Lemma row_check_witness :
  validateInput newBoard "A0" = (-1, -1, Some (ErrRowDoesNotExist 0))
  ∧ validateInput newBoard "A?" = (-1, -1, Some (ErrNotSerious 0))
  ∧ (validateInput newBoard "A8" = (8, 1, None)
     ∨ validateInput newBoard "A8" = (-1, -1, Some (ErrColumnDoesNotExist "A"))).
Proof.
  split; [|split].
  - apply (proj1 (proj2 (row_check newBoard "A"%char "0"%char))). reflexivity.
  - apply (proj1 (row_check newBoard "A"%char "?"%char)). reflexivity.
  - apply (proj2 (proj2 (row_check newBoard "A"%char "8"%char))).
    split; apply Z.leb_le; reflexivity.
Defined.

(** C8 on the fresh board, the token C5 and the cell of row 8, column 8. *)
Lemma parse_render_inverse_witness :
  (validateInput newBoard "C5" = (5, 3, None)
   ∧ columnLabel newBoard 3 = Some "C"%string
   ∧ rowLabel newBoard 5 = Some "5"%string)
  ∧ ∃ letter digit,
      columnLabel newBoard 8 = Some (String letter EmptyString)
      ∧ rowLabel newBoard 8 = Some (String digit EmptyString)
      ∧ validateInput newBoard (token letter digit) = (8, 8, None).
Proof.
  assert (Hs : grid_shape (Rows newBoard))
    by (split; [reflexivity|vm_compute; repeat constructor]).
  split.
  - apply (proj1 (parse_render_inverse newBoard Hs) "C"%char "5"%char);
      split; apply Z.leb_le; reflexivity.
  - apply (proj2 (parse_render_inverse newBoard Hs) 8 8); lia.
Defined.

(** * Further properties of the code *)

(** ** [validateInput] on every text *)

(** X1. A text that is not two bytes long (the empty line, one
    character, a two-digit row such as A10) is rejected with the
    not-a-valid-position error, and that error is returned for no
    text of two bytes. *)
Theorem validateInput_wrong_length (b : Board) (text : string) :
  (validateInput b text).2 = Some ErrNotValidPosition ↔ String.length text ≠ 2%nat.
Proof.
  destruct text as [|letter [|digit [|x rest]]];
    try (simpl; split; [lia|reflexivity]).
  change (String letter (String digit "")) with (token letter digit).
  rewrite validateInput_token.
  split; [|intros H; exfalso; apply H; reflexivity].
  repeat match goal with
         | |- context [if ?c then _ else _] => destruct c
         end; discriminate.
Qed.

(** X2. [validateInput] returns either an error with row and column
    -1, or no error with a row and a column between 1 and [gridSize]. *)
Theorem validateInput_result (b : Board) (text : string) :
  (∃ e, validateInput b text = (-1, -1, Some e))
  ∨ (∃ r c, validateInput b text = (r, c, None)
       ∧ 1 <= r <= gridSize ∧ 1 <= c <= gridSize).
Proof.
  destruct (validateInput b text) as [[r c] [e|]] eqn:Hv.
  - left. exists e.
    destruct text as [|letter [|digit [|x rest]]]; try (injection Hv as <- <- <-; reflexivity).
    change (String letter (String digit "")) with (token letter digit) in Hv.
    rewrite validateInput_token in Hv.
    repeat match type of Hv with
           | context [if ?c then _ else _] => destruct c
           end; try discriminate; injection Hv as <- <- <-; reflexivity.
  - right. exists r, c. split; [reflexivity|].
    apply validateInput_bounds in Hv. exact Hv.
Qed.

(** X3. The column error is returned exactly for a two-byte text whose
    second byte is a digit 1..9 and whose first byte is not one of the
    letters A..I (a lower-case letter is not one); it carries the
    string of that first byte.  The row is checked first: with a bad
    second byte the error is never about the column. *)
Theorem column_error_iff (b : Board) (text l : string) :
  validateInput b text = (-1, -1, Some (ErrColumnDoesNotExist l)) ↔
  ∃ letter digit, text = token letter digit
    ∧ 49 <= byte_val digit <= 57
    ∧ ¬ (65 <= byte_val letter <= 73)
    ∧ l = string_of_byte letter.
Proof.
  split.
  - destruct text as [|letter [|digit [|x rest]]]; try discriminate.
    change (String letter (String digit "")) with (token letter digit).
    rewrite validateInput_token. unfold isDigit, gridSize. intros H.
    exists letter, digit. split; [reflexivity|].
    repeat match type of H with
           | context [if ?c then _ else _] => destruct c eqn:?; simpl in H
           end; try discriminate.
    injection H as <-. repeat split; lia.
  - intros (letter & digit & -> & Hd & Hl & ->).
    rewrite validateInput_token. unfold isDigit, gridSize.
    replace ((48 <=? byte_val digit) && (byte_val digit <=? 57)) with true by lia.
    replace ((byte_val digit - 48 >? 9) || (byte_val digit - 48 <? 1)) with false by lia.
    replace ((65 <=? byte_val letter) && (byte_val letter <=? 73)) with false by lia.
    reflexivity.
Qed.

(** X4. The row error is returned only for the digit 0, and carries
    row 0: a single digit is never above [gridSize], the test
    [row > gridSize] never fires.  The error of a failed conversion
    carries row 0 as well. *)
Theorem row_error_only_zero (b : Board) (text : string) (row : Z) :
  ((validateInput b text).2 = Some (ErrRowDoesNotExist row) ↔
     row = 0 ∧ ∃ letter, text = token letter "0"%char)
  ∧ ((validateInput b text).2 = Some (ErrNotSerious row) → row = 0).
Proof.
  destruct text as [|letter [|digit [|x rest]]];
    try (split; [split; [discriminate|intros (_ & l & [=])]|discriminate]).
  change (String letter (String digit "")) with (token letter digit).
  rewrite validateInput_token. unfold isDigit, gridSize.
  assert (Hbv := byte_of_val digit).
  split; [split|].
  - intros H.
    repeat match type of H with
           | context [if ?c then _ else _] => destruct c eqn:?; simpl in H
           end; try discriminate.
    injection H as <-.
    assert (E : byte_val digit = 48) by lia.
    split; [lia|]. exists letter. rewrite <- Hbv, E. reflexivity.
  - intros (-> & l & [= -> ->]). reflexivity.
  - intros H.
    repeat match type of H with
           | context [if ?c then _ else _] => destruct c eqn:?; simpl in H
           end; try discriminate.
    injection H as <-. reflexivity.
Qed.

(** ** The tables of [init] and the fresh board *)

(** X5. Whatever the two tables hold before, after [init] the index
    table maps each of 0..8 to the letter of code 65 + i and the
    inverted table maps that letter to i + 1; every other key of
    either table is as it was. *)
Theorem init_tables (cm : gmap Z string) (cmi : gmap string Z) :
  (∀ i, 0 <= i < gridSize →
     (init (cm, cmi)).1 !! i = Some (string_of_rune (65 + i))
     ∧ (init (cm, cmi)).2 !! string_of_rune (65 + i) = Some (i + 1))
  ∧ (∀ i, ¬ (0 <= i < gridSize) → (init (cm, cmi)).1 !! i = cm !! i)
  ∧ (∀ l, (∀ i, 0 <= i < gridSize → l ≠ string_of_rune (65 + i)) →
       (init (cm, cmi)).2 !! l = cmi !! l).
Proof.
  unfold init, gridSize.
  change (seqZ 0 9) with [0; 1; 2; 3; 4; 5; 6; 7; 8]. cbn [foldl fst snd].
  split; [|split].
  - intros i Hi.
    assert (E : i = 0 ∨ i = 1 ∨ i = 2 ∨ i = 3 ∨ i = 4 ∨ i = 5 ∨ i = 6 ∨ i = 7 ∨ i = 8) by lia.
    destruct E as [->|[->|[->|[->|[->|[->|[->|[->| ->]]]]]]]];
      (split; [by simplify_map_eq|]);
      vm_compute string_of_rune; by simplify_map_eq.
  - intros i Hi. rewrite !lookup_insert_ne by lia. reflexivity.
  - intros l Hl.
    rewrite !lookup_insert_ne; [reflexivity|..];
      intros E; symmetry in E; revert E; apply Hl; lia.
Qed.

Lemma init_lookup_aux (i : Z) : 0 <= i < gridSize → is_Some (columnMap !! i).
Proof.
  unfold gridSize. intros Hi.
  assert (E : i = 0 ∨ i = 1 ∨ i = 2 ∨ i = 3 ∨ i = 4 ∨ i = 5 ∨ i = 6 ∨ i = 7 ∨ i = 8) by lia.
  destruct E as [->|[->|[->|[->|[->|[->|[->|[->| ->]]]]]]]]; vm_compute; eauto.
Qed.

(** X6. The two tables of the program are inverse to each other, one
    apart: the letter at index i of [columnMap] is the letter that
    [columnMapInverted] maps to i + 1; the indices are 0..8. *)
Theorem column_tables_inverse (i : Z) (l : string) :
  (columnMap !! i = Some l ↔ columnMapInverted !! l = Some (i + 1))
  ∧ (is_Some (columnMap !! i) ↔ 0 <= i < gridSize).
Proof.
  assert (H1 : map_Forall (λ i l, columnMapInverted !! l = Some (i + 1)
                                  ∧ 0 <= i < gridSize) columnMap).
  { apply map_Forall_to_list. vm_compute. repeat constructor; discriminate. }
  assert (H2 : map_Forall (λ l k, columnMap !! (k - 1) = Some l) columnMapInverted).
  { apply map_Forall_to_list. vm_compute. repeat constructor. }
  split; split.
  - intros H. apply (H1 _ _ H).
  - intros H. apply H2 in H. replace (i + 1 - 1) with i in H by lia. exact H.
  - intros [x H]. apply (H1 _ _ H).
  - intros Hi. destruct (init_lookup_aux i Hi) as [x Hx]. eauto.
Qed.

Lemma getCell_outside rows i j :
  grid_shape rows → ¬ (0 <= i < gridSize ∧ 0 <= j < gridSize) →
  getCell rows i j = None.
Proof.
  intros [Hlen Hrows]%grid_shape_rows Hij. unfold getCell.
  destruct ((i <? 0) || (j <? 0)) eqn:Hneg; [reflexivity|].
  destruct (rows !! Z.to_nat i) as [row|] eqn:Hrow; [|reflexivity].
  simpl. apply lookup_ge_None. assert (Hl := Hrows _ _ Hrow).
  apply lookup_lt_Some in Hrow. lia.
Qed.

(** X7. The fresh board: the cells of rows 0..8 and columns 0..8 are
    all [Available] and there is no other cell; PlayerOne is to move;
    neither player has a recorded position; the 64 cells the table
    shows are all empty. *)
Theorem newBoard_fresh :
  (∀ i j, getCell (Rows newBoard) i j =
          if (0 <=? i) && (i <? gridSize) && (0 <=? j) && (j <? gridSize)
          then Some (mkCell Available) else None)
  ∧ playerOneTurn newBoard = true
  ∧ position true newBoard = (0, 0) ∧ position false newBoard = (0, 0)
  ∧ emptyCells newBoard = playableCells ∧ length playableCells = 64%nat.
Proof.
  split; [|repeat split; vm_compute; reflexivity].
  intros i j.
  destruct ((0 <=? i) && (i <? gridSize) && (0 <=? j) && (j <? gridSize)) eqn:Hr.
  - destruct (getCell_in_range (Rows newBoard) i j newBoard_shape) as [cell Hc]; [lia..|].
    rewrite Hc. f_equal. eapply newBoard_cells, Hc.
  - apply getCell_outside; [apply newBoard_shape|lia].
Qed.

(** ** The rendered table *)

Lemma Render_entries b n m s :
  Render b !! n ≫= (λ row, row !! m) = Some s →
  ∃ row cell, Rows b !! n = Some row ∧ row !! m = Some cell
    ∧ s = renderedEntry (Z.of_nat n) (Z.of_nat m) cell.
Proof.
  unfold Render. rewrite list_lookup_imap.
  destruct (Rows b !! n) as [row|] eqn:Hrow; [|discriminate]. simpl.
  rewrite list_lookup_imap.
  destruct (row !! m) as [cell|] eqn:Hcell; [|discriminate]. simpl.
  intros [= <-]. exists row, cell. split; [reflexivity|]. split; [exact Hcell|reflexivity].
Qed.

Lemma Cell_Render_inj c1 c2 : Cell_Render c1 = Cell_Render c2 → c1 = c2.
Proof. destruct c1 as [[]], c2 as [[]]; unfold Cell_Render; simpl; congruence. Qed.

Lemma renderedEntry_shown i j cell :
  0 <= i < gridSize → 0 <= j < gridSize → renderedEntry i j cell ∈ shownStrings.
Proof.
  unfold gridSize. intros Hi Hj.
  assert (Ei : i = 0 ∨ i = 1 ∨ i = 2 ∨ i = 3 ∨ i = 4 ∨ i = 5 ∨ i = 6 ∨ i = 7 ∨ i = 8) by lia.
  assert (Ej : j = 0 ∨ j = 1 ∨ j = 2 ∨ j = 3 ∨ j = 4 ∨ j = 5 ∨ j = 6 ∨ j = 7 ∨ j = 8) by lia.
  destruct cell as [[]];
    destruct Ei as [->|[->|[->|[->|[->|[->|[->|[->| ->]]]]]]]];
    destruct Ej as [->|[->|[->|[->|[->|[->|[->|[->| ->]]]]]]]];
    vm_compute renderedEntry; unfold shownStrings;
    repeat first [apply list_elem_of_here | apply list_elem_of_further].
Qed.

(** X8. On a 9x9 board every entry of the rendered table is the empty
    string, one of the letters A..H, one of the digits 1..8, or one of
    X, O and ~; the letter I and the digit 9, which [validateInput]
    accepts, label no column and no row. *)
Theorem Render_alphabet (b : Board) (i j : Z) (s : string) :
  grid_shape (Rows b) →
  tableCell (Render b) i j = Some s →
  s ∈ shownStrings ∧ s ≠ "I"%string ∧ s ≠ "9"%string.
Proof.
  intros [Hlen Hrows]%grid_shape_rows Hs.
  apply Render_entries in Hs as (row & cell & Hrow & Hcell & ->).
  assert (Hin : renderedEntry (Z.of_nat (Z.to_nat i)) (Z.of_nat (Z.to_nat j)) cell
                ∈ shownStrings).
  { apply renderedEntry_shown.
    - apply lookup_lt_Some in Hrow. lia.
    - assert (Hl := Hrows _ _ Hrow). apply lookup_lt_Some in Hcell. lia. }
  split; [exact Hin|].
  split; intros E; rewrite E in Hin; revert Hin; unfold shownStrings;
    rewrite !elem_of_cons, elem_of_nil; intros H;
    repeat (destruct H as [H|H]; [discriminate|]); exact H.
Qed.

Lemma renderedEntry_header i j cell :
  0 <= i < gridSize → 0 <= j < gridSize → i = 0 ∨ j = 0 →
  renderedEntry i j cell = renderedEntry i j newCell
  ∧ renderedEntry i j cell ≠ "X"%string
  ∧ renderedEntry i j cell ≠ "O"%string.
Proof.
  unfold gridSize. intros Hi Hj H0.
  assert (Ei : i = 0 ∨ i = 1 ∨ i = 2 ∨ i = 3 ∨ i = 4 ∨ i = 5 ∨ i = 6 ∨ i = 7 ∨ i = 8) by lia.
  assert (Ej : j = 0 ∨ j = 1 ∨ j = 2 ∨ j = 3 ∨ j = 4 ∨ j = 5 ∨ j = 6 ∨ j = 7 ∨ j = 8) by lia.
  destruct H0 as [-> | ->]; [clear Ei|clear Ej].
  - destruct Ej as [->|[->|[->|[->|[->|[->|[->|[->| ->]]]]]]]];
      vm_compute; repeat split; discriminate.
  - destruct Ei as [->|[->|[->|[->|[->|[->|[->|[->| ->]]]]]]]];
      vm_compute; repeat split; discriminate.
Qed.

Lemma renderedEntry_interior i j cell :
  1 <= i → 1 <= j → renderedEntry i j cell = Cell_Render cell.
Proof.
  intros Hi Hj. unfold renderedEntry.
  replace (i =? 0) with false by lia. replace (j =? 0) with false by lia.
  reflexivity.
Qed.

Lemma getCell_nat rows n m :
  getCell rows (Z.of_nat n) (Z.of_nat m) = rows !! n ≫= λ row, row !! m.
Proof.
  unfold getCell.
  assert (Hn := Nat2Z.is_nonneg n). assert (Hm := Nat2Z.is_nonneg m).
  replace ((Z.of_nat n <? 0) || (Z.of_nat m <? 0)) with false
    by (destruct (Z.ltb_spec (Z.of_nat n) 0), (Z.ltb_spec (Z.of_nat m) 0); simpl; lia).
  rewrite !Nat2Z.id. reflexivity.
Qed.

(** The table depends on the cells of rows 1..8 and columns 1..8 only. *)
Lemma Render_ext (b b' : Board) :
  grid_shape (Rows b) → grid_shape (Rows b') →
  (∀ i j, 1 <= i < gridSize → 1 <= j < gridSize →
          getCell (Rows b) i j = getCell (Rows b') i j) →
  Render b = Render b'.
Proof.
  intros Hs Hs' Hcells.
  apply grid_shape_rows in Hs as [Hlen Hrows], Hs' as [Hlen' Hrows'].
  unfold Render. apply list_eq. intros n. rewrite !list_lookup_imap.
  destruct (Rows b !! n) as [row|] eqn:Hrow, (Rows b' !! n) as [row'|] eqn:Hrow';
    simpl; try reflexivity.
  2:{ apply lookup_lt_Some in Hrow. apply lookup_ge_None in Hrow'. lia. }
  2:{ apply lookup_lt_Some in Hrow'. apply lookup_ge_None in Hrow. lia. }
  f_equal. apply list_eq. intros m. rewrite !list_lookup_imap.
  assert (Hl := Hrows _ _ Hrow). assert (Hl' := Hrows' _ _ Hrow').
  assert (Hn := lookup_lt_Some _ _ _ Hrow).
  destruct (row !! m) as [cell|] eqn:Hcell, (row' !! m) as [cell'|] eqn:Hcell';
    simpl; try reflexivity.
  2:{ apply lookup_lt_Some in Hcell. apply lookup_ge_None in Hcell'. lia. }
  2:{ apply lookup_lt_Some in Hcell'. apply lookup_ge_None in Hcell. lia. }
  assert (Hm := lookup_lt_Some _ _ _ Hcell).
  f_equal. change (renderedEntry (Z.of_nat n) (Z.of_nat m) cell
                   = renderedEntry (Z.of_nat n) (Z.of_nat m) cell').
  destruct (decide (n = 0%nat ∨ m = 0%nat)) as [H0|H0].
  - destruct (renderedEntry_header (Z.of_nat n) (Z.of_nat m) cell) as [-> _]; [lia..|].
    destruct (renderedEntry_header (Z.of_nat n) (Z.of_nat m) cell') as [-> _]; [lia..|].
    reflexivity.
  - specialize (Hcells (Z.of_nat n) (Z.of_nat m)).
    rewrite !getCell_nat, Hrow, Hrow' in Hcells. simpl in Hcells.
    rewrite Hcell, Hcell' in Hcells.
    assert (E : Some cell = Some cell') by (apply Hcells; lia).
    congruence.
Qed.

(** X9. Two 9x9 boards are rendered as the same table exactly when
    they agree on every cell of rows 1..8 and columns 1..8: the table
    tells the states of those cells apart, and shows nothing of the
    cells of row 0 and column 0, of the turn or of the recorded
    positions. *)
Theorem Render_shows_interior (b b' : Board) :
  grid_shape (Rows b) → grid_shape (Rows b') →
  Render b = Render b' ↔
  ∀ i j, 1 <= i < gridSize → 1 <= j < gridSize →
         getCell (Rows b) i j = getCell (Rows b') i j.
Proof.
  intros Hs Hs'. split; [|apply Render_ext; assumption].
  intros HR i j Hi Hj.
  destruct (tableCell_Render b i j Hs) as (cell & Hc & Ht); [lia..|].
  destruct (tableCell_Render b' i j Hs') as (cell' & Hc' & Ht'); [lia..|].
  rewrite HR, Ht' in Ht.
  replace (i =? 0) with false in Ht by lia.
  replace (j =? 0) with false in Ht by lia.
  simpl in Ht. injection Ht as Ht. apply Cell_Render_inj in Ht.
  rewrite Hc, Hc'. congruence.
Qed.

(** X10. On every board of a game the table shows X in at most one
    place, the position recorded for PlayerOne, and O in at most one
    place, the position recorded for PlayerTwo. *)
Theorem Render_marks (TrimSpace : string → string) (n : nat) (b : Board) (i j : Z) :
  plays TrimSpace newBoard n b → 0 <= i → 0 <= j →
  (tableCell (Render b) i j = Some "X"%string → (i, j) = (playerOneRow b, playerOneCol b))
  ∧ (tableCell (Render b) i j = Some "O"%string → (i, j) = (playerTwoRow b, playerTwoCol b)).
Proof.
  intros Hp Hi Hj.
  assert (HI : Inv b) by (eapply plays_Inv; [apply newBoard_Inv|exact Hp]).
  assert (Hs := inv_shape b HI).
  assert (G : ∀ one s, s = Cell_Render (mark one) →
              tableCell (Render b) i j = Some s → (i, j) = position one b).
  { intros one s Es Ht.
    assert (Hr : 0 <= i < gridSize ∧ 0 <= j < gridSize).
    { apply Render_entries in Ht as (row & cell & Hrow & Hcell & _).
      apply grid_shape_rows in Hs as [Hlen Hrows].
      assert (Hl := Hrows _ _ Hrow).
      apply lookup_lt_Some in Hrow, Hcell. lia. }
    destruct (tableCell_Render b i j Hs) as (cell & Hc & Ht'); [lia..|].
    rewrite Ht' in Ht. injection Ht as Ht.
    change (renderedEntry i j cell = s) in Ht.
    destruct (decide (i = 0 ∨ j = 0)) as [H0|H0].
    - destruct (renderedEntry_header i j cell) as (_ & HX & HO); [lia..|].
      subst s. destruct one; contradiction.
    - rewrite renderedEntry_interior in Ht by lia. subst s.
      apply Cell_Render_inj in Ht. subst cell.
      apply (inv_mark b HI). exact Hc. }
  split; [apply (G true)|apply (G false)]; reflexivity.
Qed.

(** ** Turns and games *)

Lemma applied_available b r c b' i j :
  Inv b →
  (∀ one, 0 < (position one b).1 →
     getCell (Rows b) (position one b).1 (position one b).2 ≠ Some (mkCell Available)) →
  applied b r c b' →
  getCell (Rows b') i j = Some (mkCell Available)
  ↔ getCell (Rows b) i j = Some (mkCell Available) ∧ (i, j) ≠ (r, c).
Proof.
  intros HI Hocc Ha.
  destruct (applied_cells _ _ _ _ HI Ha) as (Hdest & Hold & Hrest). cbv zeta in *.
  destruct (decide ((i, j) = (r, c))) as [[= -> ->]|Hne].
  { rewrite Hdest. split; [destruct (playerOneTurn b); discriminate|].
    intros [_ H]. contradiction. }
  destruct (decide ((i, j) = position (playerOneTurn b) b)) as [E|Hne'].
  - destruct (Z_lt_le_dec 0 i) as [Hi|Hi].
    + rewrite (Hold i j Hne E Hi). split; [discriminate|]. intros [H _].
      specialize (Hocc (playerOneTurn b)). rewrite <- E in Hocc. simpl in Hocc.
      exfalso. apply Hocc; assumption.
    + rewrite Hrest; [tauto|exact Hne|]. right. rewrite <- E. simpl. lia.
  - rewrite Hrest by auto. tauto.
Qed.

(** The boards of a game, with one more fact: the cell at the position
    recorded for a player who has moved is not [Available]. *)
Lemma applied_occupied b r c b' :
  Inv b → 1 <= r → 1 <= c →
  (∀ one, 0 < (position one b).1 →
     getCell (Rows b) (position one b).1 (position one b).2 ≠ Some (mkCell Available)) →
  applied b r c b' →
  ∀ one, 0 < (position one b').1 →
     getCell (Rows b') (position one b').1 (position one b').2 ≠ Some (mkCell Available).
Proof.
  intros HI Hr Hc Hocc Ha one Hmoved.
  rewrite (applied_available b r c b' _ _ HI Hocc Ha).
  intros [Hav Hne].
  destruct Ha as (rows1 & _ & _ & Hp & Hq & _).
  destruct (decide (one = playerOneTurn b)) as [->|Hone].
  - rewrite Hp in Hne. simpl in Hne. contradiction.
  - replace one with (negb (playerOneTurn b)) in *
      by (destruct one, (playerOneTurn b); simpl; congruence).
    rewrite Hq in Hav, Hmoved. exact (Hocc _ Hmoved Hav).
Qed.

Section GameFacts.

Variable TrimSpace : string → string.

Lemma plays_occupied b n b' :
  Inv b →
  (∀ one, 0 < (position one b).1 →
     getCell (Rows b) (position one b).1 (position one b).2 ≠ Some (mkCell Available)) →
  plays TrimSpace b n b' →
  ∀ one, 0 < (position one b').1 →
     getCell (Rows b') (position one b').1 (position one b').2 ≠ Some (mkCell Available).
Proof.
  intros HI Hocc Hp. induction Hp as [b|b input b1 k b2 HT _ IH|b input e b1 k b2 HT _ IH].
  - exact Hocc.
  - apply IH; [eapply Turn_Inv; eauto|].
    apply Turn_applied in HT as (r & c & Hv & Ha).
    apply validateInput_bounds in Hv as [Hr Hc].
    eapply applied_occupied; eauto; lia.
  - apply Turn_rejected in HT as [-> _]. apply IH; assumption.
Qed.

Lemma newBoard_occupied :
  ∀ one, 0 < (position one newBoard).1 →
     getCell (Rows newBoard) (position one newBoard).1 (position one newBoard).2
     ≠ Some (mkCell Available).
Proof. intros [] H; simpl in H; lia. Qed.

(** X11. Through an applied turn of a game a cell is [Available]
    afterwards exactly when it was [Available] before and is not the
    destination: no cell ever becomes [Available] again, and a turn
    uses up no empty cell but its destination. *)
Theorem available_after_turn (n : nat) (b b' : Board) (input : string) :
  plays TrimSpace newBoard n b →
  Turn TrimSpace b input = Some (b', None) →
  ∃ r c, validateInput b (TrimSpace input) = (r, c, None)
    ∧ (∀ i j, getCell (Rows b') i j = Some (mkCell Available)
              ↔ getCell (Rows b) i j = Some (mkCell Available) ∧ (i, j) ≠ (r, c))
    ∧ emptyCells b' = filter (λ p, p ≠ (r, c)) (emptyCells b).
Proof.
  intros Hp HT.
  assert (HI : Inv b) by (eapply plays_Inv; [apply newBoard_Inv|exact Hp]).
  assert (Hocc := plays_occupied _ _ _ newBoard_Inv newBoard_occupied Hp).
  apply Turn_applied in HT as (r & c & Hv & Ha).
  exists r, c. split; [exact Hv|].
  assert (Hav := λ i j, applied_available b r c b' i j HI Hocc Ha).
  split; [exact Hav|].
  unfold emptyCells. rewrite list_filter_filter. apply list_filter_iff.
  intros [i j]. simpl. rewrite Hav. tauto.
Qed.

End GameFacts.

Lemma length_filter_ne {A} `{EqDecision A} (x : A) (l : list A) :
  NoDup l → (length l ≤ S (length (filter (λ y, y ≠ x) l)))%nat.
Proof.
  induction 1 as [|a l Ha Hnd IH]; [simpl; lia|].
  rewrite filter_cons. destruct (decide (a ≠ x)) as [Hne|Heq]; simpl; [lia|].
  assert (a = x) as -> by (destruct (decide (a = x)); [assumption|contradiction]).
  assert (E : filter (λ y, y ≠ x) l = l).
  { clear IH Hnd. induction l as [|y l IHl]; [reflexivity|].
    rewrite filter_cons. rewrite not_elem_of_cons in Ha. destruct Ha as [Hy Hl].
    destruct (decide (y ≠ x)) as [Hyx|Hyx]; [|exfalso; apply Hyx; congruence].
    f_equal. auto. }
  rewrite E. lia.
Qed.

Lemma playableCells_NoDup : NoDup playableCells.
Proof. apply (bool_decide_unpack _). vm_compute. exact I. Qed.

Section Counting.

Variable TrimSpace : string → string.

Lemma plays_emptyCells b n b' :
  Inv b →
  (∀ one, 0 < (position one b).1 →
     getCell (Rows b) (position one b).1 (position one b).2 ≠ Some (mkCell Available)) →
  plays TrimSpace b n b' →
  (length (emptyCells b) ≤ length (emptyCells b') + n)%nat
  ∧ emptyCells b' ⊆ emptyCells b.
Proof.
  intros HI Hocc Hp.
  induction Hp as [b|b input b1 k b2 HT _ IH|b input e b1 k b2 HT _ IH].
  - split; [lia|reflexivity].
  - assert (HI1 : Inv b1) by (eapply Turn_Inv; eauto).
    apply Turn_applied in HT as (r & c & Hv & Ha).
    assert (Hb := validateInput_bounds _ _ _ _ Hv).
    assert (Hocc1 := applied_occupied b r c b1 HI ltac:(lia) ltac:(lia) Hocc Ha).
    destruct (IH HI1 Hocc1) as [IHlen IHsub].
    assert (E : emptyCells b1 = filter (λ p, p ≠ (r, c)) (emptyCells b)).
    { unfold emptyCells. rewrite list_filter_filter. apply list_filter_iff.
      intros [i j]. simpl. rewrite (applied_available b r c b1 i j HI Hocc Ha). tauto. }
    split.
    + assert (Hl := length_filter_ne (r, c) (emptyCells b)
                      (NoDup_filter _ _ playableCells_NoDup)).
      rewrite <- E in Hl. lia.
    + intros p Hin. apply IHsub in Hin. rewrite E in Hin.
      apply list_elem_of_filter in Hin. tauto.
  - apply Turn_rejected in HT as [-> _]. apply IH; assumption.
Qed.

(** X12. In a game started on the fresh board, after [n] applied
    moves at least 64 - n of the 64 cells the table shows are still
    [Available], and the empty cells are among those of every earlier
    board of the game: the table cannot be full before the 64th move. *)
Theorem empty_cells_count (n m : nat) (b b' : Board) :
  plays TrimSpace newBoard n b → plays TrimSpace b m b' →
  (64 ≤ length (emptyCells b) + n)%nat
  ∧ (length (emptyCells b) ≤ length (emptyCells b') + m)%nat
  ∧ emptyCells b' ⊆ emptyCells b.
Proof.
  intros Hp Hq.
  destruct (plays_emptyCells _ _ _ newBoard_Inv newBoard_occupied Hp) as [H1 _].
  split; [exact H1|].
  apply plays_emptyCells; [|eapply plays_occupied; eauto using newBoard_Inv, newBoard_occupied|exact Hq].
  eapply plays_Inv; [apply newBoard_Inv|exact Hp].
Qed.

End Counting.

Section Crashes.

Variable TrimSpace : string → string.

Lemma Turn_None_iff b input :
  Inv b → Turn TrimSpace b input = None ↔ outsideTable (TrimSpace input) = true.
Proof.
  intros HI. unfold Turn, outsideTable.
  change (validateInput newBoard (TrimSpace input))
    with (validateInput b (TrimSpace input)).
  destruct (validateInput b (TrimSpace input)) as [[r c] [e|]] eqn:Hv.
  - split; discriminate.
  - apply validateInput_bounds in Hv.
    destruct ((gridSize <=? r) || (gridSize <=? c)) eqn:Hout.
    + rewrite move_panics; [tauto|exact HI|lia].
    + destruct (move_succeeds b r c HI) as [b1 ->]; [lia..|].
      simpl. split; discriminate.
Qed.

(** X13. On a board of a game a turn panics exactly when the trimmed
    line is accepted by [validateInput] with row 9 or column 9, that is
    when it is a letter A..I followed by a digit 1..9 with the letter I
    or the digit 9; on every other line the turn returns. *)
Theorem Turn_panics_iff (n : nat) (b : Board) (input : string) :
  plays TrimSpace newBoard n b →
  (Turn TrimSpace b input = None ↔ outsideTable (TrimSpace input) = true)
  ∧ (outsideTable (TrimSpace input) = true ↔
     ∃ letter digit, TrimSpace input = token letter digit
       ∧ 65 <= byte_val letter <= 73 ∧ 49 <= byte_val digit <= 57
       ∧ (byte_val letter = 73 ∨ byte_val digit = 57)).
Proof.
  intros Hp.
  assert (HI : Inv b) by (eapply plays_Inv; [apply newBoard_Inv|exact Hp]).
  split; [apply Turn_None_iff, HI|].
  unfold outsideTable. split.
  - destruct (validateInput newBoard (TrimSpace input)) as [[r c] [e|]] eqn:Hv;
      [discriminate|].
    intros Hout.
    apply validateInput_accepted in Hv as (letter & digit & Ht & Hl & Hd & -> & ->).
    exists letter, digit. unfold gridSize in Hout. repeat split; try tauto; lia.
  - intros (letter & digit & -> & Hl & Hd & Hout).
    rewrite validateInput_token. unfold isDigit, gridSize.
    replace ((48 <=? byte_val digit) && (byte_val digit <=? 57)) with true by lia.
    replace ((byte_val digit - 48 >? 9) || (byte_val digit - 48 <? 1)) with false by lia.
    replace ((65 <=? byte_val letter) && (byte_val letter <=? 73)) with true by lia.
    simpl. lia.
Qed.

(** X14. The loop started on the fresh board panics on the lines typed
    exactly when one of them, trimmed, is accepted with row 9 or column
    9; otherwise it goes through all of them. *)
Theorem mainLoop_panics_iff (stdin : list string) :
  mainLoop TrimSpace newBoard stdin = None
  ↔ Exists (λ input, outsideTable (TrimSpace input) = true) stdin.
Proof.
  assert (G : ∀ b, Inv b →
    mainLoop TrimSpace b stdin = None
    ↔ Exists (λ input, outsideTable (TrimSpace input) = true) stdin).
  { induction stdin as [|input rest IH]; intros b HI; simpl.
    - rewrite Exists_nil. split; [discriminate|tauto].
    - rewrite Exists_cons.
      destruct (Turn TrimSpace b input) as [[b1 err]|] eqn:HT.
      + rewrite (IH b1) by (eapply Turn_Inv; eauto).
        assert (Hn : outsideTable (TrimSpace input) ≠ true).
        { rewrite <- (Turn_None_iff b input HI). congruence. }
        tauto.
      + apply (Turn_None_iff b input HI) in HT. tauto. }
  apply G, newBoard_Inv.
Qed.

(** X15. Rejected lines count for nothing: from any board the loop ends
    in the same way on the lines typed as on those of them that
    [validateInput] accepts, and when it does not panic the number of
    moves applied is the number of accepted lines. *)
Theorem rejected_lines_are_skipped (b : Board) (stdin : list string) :
  let ok := filter (λ input, accepted (TrimSpace input) = true) stdin in
  mainLoop TrimSpace b stdin = mainLoop TrimSpace b ok
  ∧ (mainLoop TrimSpace b stdin ≠ None → movesApplied TrimSpace b stdin = length ok).
Proof.
  cbv zeta. revert b. induction stdin as [|input rest IH]; intros b.
  - split; reflexivity.
  - rewrite filter_cons. cbn [mainLoop movesApplied].
    assert (Hacc : ∀ o, (validateInput b (TrimSpace input)).2 = o →
                        accepted (TrimSpace input) = match o with None => true | _ => false end).
    { intros o <-. reflexivity. }
    destruct (Turn TrimSpace b input) as [[b1 [e|]]|] eqn:HT.
    + apply Turn_rejected in HT as [-> Hv]. apply Hacc in Hv.
      destruct (decide (accepted (TrimSpace input) = true)) as [E|_]; [congruence|].
      apply IH.
    + assert (Hv := HT). apply Turn_applied in Hv as (r & c & Hv & _).
      assert (E : accepted (TrimSpace input) = true) by (apply (Hacc None); rewrite Hv; reflexivity).
      destruct (decide (accepted (TrimSpace input) = true)) as [_|?]; [|contradiction].
      simpl. rewrite HT. destruct (IH b1) as [IH1 IH2].
      split; [exact IH1|]. intros Hn. rewrite IH2 by exact Hn. reflexivity.
    + assert (Hv : (validateInput b (TrimSpace input)).2 = None).
      { unfold Turn in HT.
        destruct (validateInput b (TrimSpace input)) as [[r c] [e|]]; [discriminate|reflexivity]. }
      apply Hacc in Hv.
      destruct (decide (accepted (TrimSpace input) = true)) as [_|?]; [|contradiction].
      simpl. rewrite HT. split; [reflexivity|congruence].
Qed.


End Crashes.

Section Positions.

Variable TrimSpace : string → string.

(** X17. Every board of a game is a table of 9 rows of 9 cells, and
    the position recorded for a player is (0, 0), before the player's
    first move, or a cell of rows 1..8 and columns 1..8 that is not
    [Available]. *)
Theorem game_board_well_formed (n : nat) (b : Board) :
  plays TrimSpace newBoard n b →
  grid_shape (Rows b)
  ∧ ∀ one, position one b = (0, 0)
      ∨ (1 <= (position one b).1 <= 8 ∧ 1 <= (position one b).2 <= 8
         ∧ ∃ s, getCell (Rows b) (position one b).1 (position one b).2 = Some (mkCell s)
                ∧ s ≠ Available).
Proof.
  intros Hp.
  assert (HI : Inv b) by (eapply plays_Inv; [apply newBoard_Inv|exact Hp]).
  assert (Hocc := plays_occupied _ _ _ _ newBoard_Inv newBoard_occupied Hp).
  split; [apply HI|]. intros one.
  destruct (inv_pos b HI one) as [E|[Hr Hc]]; [left; exact E|right].
  unfold gridSize in *. split; [lia|]. split; [lia|].
  destruct (getCell_in_range (Rows b) (position one b).1 (position one b).2 (inv_shape b HI))
    as [[s] Hs]; [unfold gridSize; lia..|].
  exists s. split; [exact Hs|]. intros ->. apply (Hocc one); [lia|exact Hs].
Qed.

(** The state of a game after [k] applied moves: whose turn it is, who
    has a recorded position, and no [Block] cell up to the second move. *)
Lemma plays_first_moves k b n b' :
  Inv b →
  (playerOneTurn b = Nat.even k
   ∧ (0 < playerOneRow b ↔ (1 ≤ k)%nat) ∧ (0 < playerTwoRow b ↔ (2 ≤ k)%nat)
   ∧ ((k ≤ 2)%nat → ∀ i j, getCell (Rows b) i j ≠ Some (mkCell Block))) →
  plays TrimSpace b n b' →
  playerOneTurn b' = Nat.even (k + n)
  ∧ (0 < playerOneRow b' ↔ (1 ≤ k + n)%nat) ∧ (0 < playerTwoRow b' ↔ (2 ≤ k + n)%nat)
  ∧ ((k + n ≤ 2)%nat → ∀ i j, getCell (Rows b') i j ≠ Some (mkCell Block)).
Proof.
  intros HI HJ Hp. revert k HJ.
  induction Hp as [b|b input b1 m b2 HT _ IH|b input e b1 m b2 HT _ IH]; intros k HJ.
  - rewrite Nat.add_0_r. exact HJ.
  - replace (k + S m)%nat with (S k + m)%nat by lia.
    apply IH; [eapply Turn_Inv; eauto|].
    apply Turn_applied in HT as (r & c & Hv & Ha).
    apply validateInput_bounds in Hv as [Hr Hc].
    destruct (applied_cells _ _ _ _ HI Ha) as (Hdest & _ & Hrest). cbv zeta in *.
    destruct Ha as (rows1 & _ & _ & Hp1 & Hq & Ht).
    destruct HJ as (Hturn & H1 & H2 & HB).
    rewrite Hturn in *. rewrite Ht, Nat.even_succ, <- Nat.negb_even.
    split; [reflexivity|].
    destruct (Nat.even k) eqn:Ev; simpl in Hp1, Hq.
    + apply Nat.even_spec in Ev as [h Eh].
      injection Hp1 as Er _. injection Hq as Er' _. rewrite Er, Er'.
      split; [split; lia|]. split; [rewrite H2; lia|].
      intros Hk i j. destruct (decide ((i, j) = (r, c))) as [[= -> ->]|Hne].
      * rewrite Hdest. discriminate.
      * rewrite Hrest; [apply HB; lia|exact Hne|]. right. simpl. lia.
    + rewrite <- Nat.negb_odd in Ev. apply negb_false_iff, Nat.odd_spec in Ev as [h Eh].
      injection Hp1 as Er _. injection Hq as Er' _. rewrite Er, Er'.
      split; [rewrite H1; lia|]. split; [split; lia|].
      intros Hk i j. destruct (decide ((i, j) = (r, c))) as [[= -> ->]|Hne].
      * rewrite Hdest. discriminate.
      * rewrite Hrest; [apply HB; lia|exact Hne|]. right. simpl. lia.
  - apply Turn_rejected in HT as [-> _]. apply IH; assumption.
Qed.

(** X18. After [n] applied moves of a game started on the fresh board,
    PlayerOne has a recorded position exactly when n >= 1 and PlayerTwo
    exactly when n >= 2; a player's first move leaves nothing behind:
    up to the second applied move no cell is [Block]. *)
Theorem first_moves (n : nat) (b : Board) :
  plays TrimSpace newBoard n b →
  (0 < playerOneRow b ↔ (1 ≤ n)%nat)
  ∧ (0 < playerTwoRow b ↔ (2 ≤ n)%nat)
  ∧ ((n ≤ 2)%nat → ∀ i j, getCell (Rows b) i j ≠ Some (mkCell Block)).
Proof.
  intros Hp.
  destruct (plays_first_moves 0 newBoard n b newBoard_Inv) as (_ & H1 & H2 & H3);
    [|exact Hp|auto].
  simpl. repeat split; try lia.
  intros _ i j H. apply newBoard_cells in H. discriminate.
Qed.

End Positions.

Section Overlaps.

Variable TrimSpace : string → string.

(** X19. Moving onto the opponent: when a player's move goes to the
    cell where the opponent stands, and the opponent then moves to
    another cell, the cell is left [Block] although it is still the
    position recorded for the player, and no cell of the table carries
    the player's mark any more. *)
Theorem mark_lost_under_opponent (n : nat) (b b1 b2 : Board) (input1 input2 : string) :
  plays TrimSpace newBoard n b →
  Turn TrimSpace b input1 = Some (b1, None) →
  position (playerOneTurn b) b1 = position (negb (playerOneTurn b)) b →
  Turn TrimSpace b1 input2 = Some (b2, None) →
  position (negb (playerOneTurn b)) b2 ≠ position (playerOneTurn b) b1 →
  position (playerOneTurn b) b2 = position (playerOneTurn b) b1
  ∧ getCell (Rows b2) (position (playerOneTurn b) b2).1 (position (playerOneTurn b) b2).2
    = Some (mkCell Block)
  ∧ ∀ i j, getCell (Rows b2) i j ≠ Some (mark (playerOneTurn b)).
Proof.
  intros Hp HT1 Hsame HT2 Hmoved.
  assert (HI : Inv b) by (eapply plays_Inv; [apply newBoard_Inv|exact Hp]).
  assert (HI1 : Inv b1) by (eapply Turn_Inv; eauto).
  assert (HI2 : Inv b2) by (eapply Turn_Inv; eauto).
  apply Turn_applied in HT1 as (r & c & Hv1 & Ha1).
  apply Turn_applied in HT2 as (r2 & c2 & Hv2 & Ha2).
  apply validateInput_bounds in Hv1 as [Hr Hc].
  destruct (applied_cells _ _ _ _ HI1 Ha2) as (_ & Hold & _). cbv zeta in Hold.
  unfold applied in Ha1, Ha2. cbv zeta in Ha1, Ha2.
  destruct Ha1 as (rows1 & _ & _ & Hp1 & Hq1 & Ht1).
  destruct Ha2 as (rows2 & _ & _ & Hp2 & Hq2 & Ht2).
  remember (playerOneTurn b) as one eqn:Hone. clear Hone.
  rewrite Ht1 in Hp2, Hq2, Hold. rewrite negb_involutive in Hq2.
  assert (Hblock : getCell (Rows b2) r c = Some (mkCell Block)).
  { apply Hold; [| |lia].
    - intros E. apply Hmoved. rewrite Hp2, Hp1. congruence.
    - rewrite Hq1, <- Hsame, Hp1. reflexivity. }
  split; [exact Hq2|]. split.
  - rewrite Hq2, Hp1. exact Hblock.
  - intros i j Hm. assert (E := inv_mark b2 HI2 _ _ _ Hm).
    rewrite Hq2, Hp1 in E. injection E as -> ->.
    rewrite Hblock in Hm. destruct one; discriminate.
Qed.

(** X20. Moving onto one's own cell is a pass: when a player who
    stands on a cell carrying the player's mark moves to that cell, no
    cell of the table changes, the table is rendered as before, both
    recorded positions stay, and the turn goes to the opponent. *)
Theorem own_cell_is_a_pass (n : nat) (b b' : Board) (input : string) :
  plays TrimSpace newBoard n b →
  Turn TrimSpace b input = Some (b', None) →
  position (playerOneTurn b) b' = position (playerOneTurn b) b →
  getCell (Rows b) (position (playerOneTurn b) b).1 (position (playerOneTurn b) b).2
  = Some (mark (playerOneTurn b)) →
  (∀ i j, getCell (Rows b') i j = getCell (Rows b) i j)
  ∧ Render b' = Render b
  ∧ (∀ one, position one b' = position one b)
  ∧ playerOneTurn b' = negb (playerOneTurn b).
Proof.
  intros Hp HT Hsame Hcell.
  assert (HI : Inv b) by (eapply plays_Inv; [apply newBoard_Inv|exact Hp]).
  assert (HI' : Inv b') by (eapply Turn_Inv; eauto).
  apply Turn_applied in HT as (r & c & Hv & Ha).
  destruct (applied_cells _ _ _ _ HI Ha) as (Hdest & _ & Hrest). cbv zeta in *.
  destruct Ha as (_ & _ & _ & Hp1 & Hq & Ht).
  rewrite Hp1 in Hsame. rewrite <- Hsame in *. simpl in Hcell.
  assert (Hcells : ∀ i j, getCell (Rows b') i j = getCell (Rows b) i j).
  { intros i j. destruct (decide ((i, j) = (r, c))) as [[= -> ->]|Hne].
    - rewrite Hdest, Hcell. reflexivity.
    - apply Hrest; auto. }
  split; [exact Hcells|]. split.
  - apply Render_ext; [apply HI'|apply HI|]. intros i j _ _. apply Hcells.
  - split; [|exact Ht]. intros one.
    destruct (decide (one = playerOneTurn b)) as [->|Hone].
    + rewrite Hp1. exact Hsame.
    + replace one with (negb (playerOneTurn b))
        by (destruct one, (playerOneTurn b); simpl; congruence).
      exact Hq.
Qed.

End Overlaps.

(** ** The further properties on games played out *)

(** X8 on the fresh board: the label of the third column. *)
Lemma Render_alphabet_witness :
  tableCell (Render newBoard) 0 3 = Some "C"%string
  ∧ "C"%string ∈ shownStrings ∧ "C"%string ≠ "I"%string ∧ "C"%string ≠ "9"%string.
Proof.
  split; [vm_compute; reflexivity|].
  apply (Render_alphabet newBoard 0 3).
  - split; [reflexivity|vm_compute; repeat constructor].
  - vm_compute. reflexivity.
Defined.

(** X9 on the fresh board and the same cells with PlayerTwo to move
    and other recorded positions. *)
Lemma Render_shows_interior_witness :
  Render newBoard = Render (mkBoard (Rows newBoard) false 3 4 5 6)
  ↔ ∀ i j, 1 <= i < gridSize → 1 <= j < gridSize →
       getCell (Rows newBoard) i j = getCell (Rows (mkBoard (Rows newBoard) false 3 4 5 6)) i j.
Proof.
  apply (Render_shows_interior newBoard (mkBoard (Rows newBoard) false 3 4 5 6));
    (split; [reflexivity|vm_compute; repeat constructor]).
Defined.

(** X10 on the board after A1, B1, A2: the X is on A2. *)
Lemma Render_marks_witness :
  ∃ b, mainLoop trim newBoard (map line ["A1"; "B1"; "A2"]) = Some b
    ∧ tableCell (Render b) 2 1 = Some "X"%string
    ∧ (2, 1) = (playerOneRow b, playerOneCol b).
Proof.
  eexists. split; [vm_compute; reflexivity|].
  split; [vm_compute; reflexivity|].
  match goal with
  | |- _ = (playerOneRow ?b, _) =>
      refine (proj1 (Render_marks trim 3 b 2 1 _ _ _) _)
  end.
  - played (map line ["A1"; "B1"; "A2"]).
  - lia.
  - lia.
  - vm_compute. reflexivity.
Defined.

(** X11 on PlayerOne's second move, from A1 to A2. *)
Lemma available_after_turn_witness :
  ∃ b2 b3,
    mainLoop trim newBoard (map line ["A1"; "B1"]) = Some b2
    ∧ Turn trim b2 (line "A2") = Some (b3, None)
    ∧ ∃ r c, validateInput b2 (trim (line "A2")) = (r, c, None)
        ∧ emptyCells b3 = filter (λ p, p ≠ (r, c)) (emptyCells b2).
Proof.
  do 2 eexists. split; [vm_compute; reflexivity|].
  split; [vm_compute; reflexivity|].
  match goal with
  | |- ∃ r c, validateInput ?b2 _ = _ ∧ emptyCells ?b3 = _ =>
      destruct (available_after_turn trim 2 b2 b3 (line "A2")) as (r & c & Hv & _ & He)
  end.
  - played (map line ["A1"; "B1"]).
  - vm_compute. reflexivity.
  - exists r, c. split; [exact Hv|exact He].
Defined.

(** X12 on the board after A1, B1, A2 and the next move, C3. *)
Lemma empty_cells_count_witness :
  ∃ b b',
    mainLoop trim newBoard (map line ["A1"; "B1"; "A2"]) = Some b
    ∧ mainLoop trim b (map line ["C3"]) = Some b'
    ∧ (64 ≤ length (emptyCells b) + 3)%nat
    ∧ (length (emptyCells b) ≤ length (emptyCells b') + 1)%nat
    ∧ emptyCells b' ⊆ emptyCells b.
Proof.
  do 2 eexists. split; [vm_compute; reflexivity|].
  split; [vm_compute; reflexivity|].
  match goal with
  | |- _ ∧ _ ∧ emptyCells ?b' ⊆ emptyCells ?b =>
      apply (empty_cells_count trim 3 1 b b')
  end.
  - played (map line ["A1"; "B1"; "A2"]).
  - played (map line ["C3"]).
Defined.

(** X13 on the board after A1, B1 and the line I3. *)
Lemma Turn_panics_iff_witness :
  ∃ b, mainLoop trim newBoard (map line ["A1"; "B1"]) = Some b
    ∧ Turn trim b (line "I3") = None.
Proof.
  eexists. split; [vm_compute; reflexivity|].
  match goal with
  | |- Turn _ ?b _ = None =>
      refine (proj2 (proj1 (Turn_panics_iff trim 2 b (line "I3") _)) _)
  end.
  - played (map line ["A1"; "B1"]).
  - vm_compute. reflexivity.
Defined.

(** X17 on the board after A1, B1, A2. *)
Lemma game_board_well_formed_witness :
  ∃ b, mainLoop trim newBoard (map line ["A1"; "B1"; "A2"]) = Some b
    ∧ grid_shape (Rows b)
    ∧ ∀ one, position one b = (0, 0)
        ∨ (1 <= (position one b).1 <= 8 ∧ 1 <= (position one b).2 <= 8
           ∧ ∃ s, getCell (Rows b) (position one b).1 (position one b).2 = Some (mkCell s)
                  ∧ s ≠ Available).
Proof.
  eexists. split; [vm_compute; reflexivity|].
  apply (game_board_well_formed trim 3).
  played (map line ["A1"; "B1"; "A2"]).
Defined.

(** X18 on the board after the one move A1. *)
Lemma first_moves_witness :
  ∃ b, mainLoop trim newBoard (map line ["A1"]) = Some b
    ∧ (0 < playerOneRow b ↔ (1 ≤ 1)%nat)
    ∧ (0 < playerTwoRow b ↔ (2 ≤ 1)%nat)
    ∧ ((1 ≤ 2)%nat → ∀ i j, getCell (Rows b) i j ≠ Some (mkCell Block)).
Proof.
  eexists. split; [vm_compute; reflexivity|].
  apply (first_moves trim 1).
  played (map line ["A1"]).
Defined.

(** X19: after A1, B1, PlayerOne moves to B1, where PlayerTwo stands,
    and PlayerTwo moves on to C1. *)
Lemma mark_lost_under_opponent_witness :
  ∃ b b1 b2,
    mainLoop trim newBoard (map line ["A1"; "B1"]) = Some b
    ∧ Turn trim b (line "B1") = Some (b1, None)
    ∧ Turn trim b1 (line "C1") = Some (b2, None)
    ∧ position (playerOneTurn b) b2 = position (playerOneTurn b) b1
    ∧ getCell (Rows b2) (position (playerOneTurn b) b2).1 (position (playerOneTurn b) b2).2
      = Some (mkCell Block)
    ∧ ∀ i j, getCell (Rows b2) i j ≠ Some (mark (playerOneTurn b)).
Proof.
  do 3 eexists. split; [vm_compute; reflexivity|].
  split; [vm_compute; reflexivity|].
  split; [vm_compute; reflexivity|].
  match goal with
  | |- position (playerOneTurn ?b) ?b2 = position _ ?b1 ∧ _ =>
      apply (mark_lost_under_opponent trim 2 b b1 b2 (line "B1") (line "C1"))
  end.
  - played (map line ["A1"; "B1"]).
  - vm_compute. reflexivity.
  - vm_compute. reflexivity.
  - vm_compute. reflexivity.
  - vm_compute. discriminate.
Defined.

(** X20: after A1, B1, PlayerOne, who stands on A1, moves to A1. *)
Lemma own_cell_is_a_pass_witness :
  ∃ b b',
    mainLoop trim newBoard (map line ["A1"; "B1"]) = Some b
    ∧ Turn trim b (line "A1") = Some (b', None)
    ∧ (∀ i j, getCell (Rows b') i j = getCell (Rows b) i j)
    ∧ Render b' = Render b
    ∧ (∀ one, position one b' = position one b)
    ∧ playerOneTurn b' = negb (playerOneTurn b).
Proof.
  do 2 eexists. split; [vm_compute; reflexivity|].
  split; [vm_compute; reflexivity|].
  match goal with
  | |- _ ∧ Render ?b' = Render ?b ∧ _ =>
      apply (own_cell_is_a_pass trim 2 b b' (line "A1"))
  end.
  - played (map line ["A1"; "B1"]).
  - vm_compute. reflexivity.
  - vm_compute. reflexivity.
  - vm_compute. reflexivity.
Defined.

(** ** The prompt, the move and the table together *)

(** X21. The player named in the prompt of [captureInput] is the one
    whose mark the applied move puts on the table: after an applied
    turn of a game the table shows X at the destination when the
    prompt read Player One and O when it read Player Two, and the next
    prompt names the other player. *)
Theorem prompt_names_the_mover
  (TrimSpace : string → string) (n : nat) (b b' : Board) (input : string) :
  plays TrimSpace newBoard n b →
  Turn TrimSpace b input = Some (b', None) →
  ∃ r c, validateInput b (TrimSpace input) = (r, c, None)
    ∧ tableCell (Render b') r c
      = Some (if String.eqb (playerTurn b) "Player One" then "X" else "O")%string
    ∧ playerTurn b' ≠ playerTurn b.
Proof.
  intros Hp HT.
  assert (HI : Inv b) by (eapply plays_Inv; [apply newBoard_Inv|exact Hp]).
  assert (HI' : Inv b') by (eapply Turn_Inv; eauto).
  apply Turn_applied in HT as (r & c & Hv & Ha).
  exists r, c. split; [exact Hv|].
  apply validateInput_bounds in Hv as [Hr Hc].
  destruct (applied_in_range _ _ _ _ HI Ha) as [Hr9 Hc9].
  destruct (applied_cells _ _ _ _ HI Ha) as (Hdest & _ & _). cbv zeta in Hdest.
  destruct Ha as (_ & _ & _ & _ & _ & Ht).
  split.
  - destruct (tableCell_Render b' r c (inv_shape b' HI') Hr9 Hc9) as (cell & Hcell & ->).
    rewrite Hdest in Hcell. injection Hcell as <-.
    replace (r =? 0) with false by lia. replace (c =? 0) with false by lia.
    unfold playerTurn. destruct (playerOneTurn b); reflexivity.
  - unfold playerTurn. rewrite Ht. destruct (playerOneTurn b); discriminate.
Qed.

(** X21 on PlayerTwo's first move, B1, after A1. *)
Lemma prompt_names_the_mover_witness :
  ∃ b b',
    mainLoop trim newBoard (map line ["A1"]) = Some b
    ∧ Turn trim b (line "B1") = Some (b', None)
    ∧ playerTurn b = "Player Two"%string
    ∧ ∃ r c, validateInput b (trim (line "B1")) = (r, c, None)
        ∧ tableCell (Render b') r c
          = Some (if String.eqb (playerTurn b) "Player One" then "X" else "O")%string
        ∧ playerTurn b' ≠ playerTurn b.
Proof.
  do 2 eexists. split; [vm_compute; reflexivity|].
  split; [vm_compute; reflexivity|].
  split; [vm_compute; reflexivity|].
  match goal with
  | |- ∃ r c, validateInput ?b _ = _ ∧ tableCell (Render ?b') _ _ = _ ∧ _ =>
      apply (prompt_names_the_mover trim 1 b b' (line "B1"))
  end.
  - played (map line ["A1"]).
  - vm_compute. reflexivity.
Defined.
